(** * live-translator: the streaming session engine of [src/App.tsx]

    A shallow embedding of the [App] component's engine: the React state,
    the refs, the callbacks that [connect] installs on the live session
    ([onopen], [onmessage], [onclose], [onerror]), the capture callback
    [onaudioprocess], [stopAudio], [updateLastMessage] and the click
    handlers of the rendered controls.

    Conventions.
    - A JavaScript string is the list of its UTF-16 code units.
    - Times read from [AudioContext.currentTime] and buffer durations are
      exact rationals (seconds); rounding of JS numbers is not modelled.
    - Each callback runs to completion: one event of the browser is one
      function from state to state and a list of outward effects.  The
      [async] callbacks are cut at [await getUserMedia] only; the other
      awaited promises ([resume], [decodeAudioData]) are taken to settle
      before the next event is delivered.  One reading of
      [currentTime] and of [Date.now()] is used per event.
    - [setMessages] updaters are applied in the order they are queued,
      so [messages] is the log after all updaters queued so far.
    - A callback created by [connect] reads the [const] bindings of the
      render in which [connect] was invoked; that environment is the
      [Render] argument of the embedded callbacks. *)

From Stdlib Require Import List Bool Arith ZArith NArith QArith Qminmax Qround.
From Stdlib Require Import Lia String Ascii DecimalString Sorted.
Import ListNotations.
Open Scope list_scope.

Set Implicit Arguments.

(** ** JavaScript strings *)

Definition jsstring := list N.

Definition lit (s : string) : jsstring :=
  map N_of_ascii (list_ascii_of_string s).

(** Truthiness of a string: [if (text)]. *)
Definition truthy (s : jsstring) : bool :=
  match s with [] => false | _ :: _ => true end.

(** ECMAScript WhiteSpace and LineTerminator code points, the ones
    [String.prototype.trim] strips. *)
Definition is_ws (c : N) : bool :=
  ((9 <=? c) && (c <=? 13) || (c =? 32) || (c =? 160) || (c =? 5760)
   || (8192 <=? c) && (c <=? 8202) || (c =? 8232) || (c =? 8233)
   || (c =? 8239) || (c =? 8287) || (c =? 12288) || (c =? 65279))%N.

Fixpoint dropWhile (p : N -> bool) (s : jsstring) : jsstring :=
  match s with
  | [] => []
  | c :: s' => if p c then dropWhile p s' else s
  end.

Definition trim (s : jsstring) : jsstring :=
  rev (dropWhile is_ws (rev (dropWhile is_ws s))).

(** [text.trim().length > 0] *)
Definition nonblank (s : jsstring) : bool := 0 <? List.length (trim s).

(** [Date.now().toString()] for a time in milliseconds. *)
Definition toString (z : Z) : jsstring :=
  lit (NilZero.string_of_int (Z.to_int z)).

(** ** types.ts *)

Inductive MessageRole := USER | MODEL.

Definition role_eqb (a b : MessageRole) : bool :=
  match a, b with
  | USER, USER | MODEL, MODEL => true
  | _, _ => false
  end.

Record ChatMessage := mkChatMessage {
  id : jsstring;
  role : MessageRole;
  text : jsstring;
  isFinal : bool;
  timestamp : Z
}.

Inductive ConnectionState := disconnected | connecting | connected | error.

(** ** The transcript log: [updateLastMessage]

    The updater passed to [setMessages]; [now_ms] is the value of
    [Date.now()] when the updater runs. *)

Definition lastOf (prev : list ChatMessage) : option ChatMessage :=
  match rev prev with [] => None | m :: _ => Some m end.

Definition newMessage (now_ms : Z) (r : MessageRole) (t : jsstring)
    (fin : bool) : ChatMessage :=
  mkChatMessage (toString now_ms) r t fin now_ms.

Definition appendIfText (now_ms : Z) (r : MessageRole) (t : jsstring)
    (fin : bool) (prev : list ChatMessage) : list ChatMessage :=
  if nonblank t then prev ++ [newMessage now_ms r t fin] else prev.

Definition updateLastMessage (now_ms : Z) (r : MessageRole) (t : jsstring)
    (fin : bool) (prev : list ChatMessage) : list ChatMessage :=
  match lastOf prev with
  | Some lastMsg =>
      if role_eqb (role lastMsg) r && negb (isFinal lastMsg)
      then removelast prev
             ++ [mkChatMessage (id lastMsg) (role lastMsg) t fin
                   (timestamp lastMsg)]
      else appendIfText now_ms r t fin prev
  | None => appendIfText now_ms r t fin prev
  end.

(** ** Audio objects *)

Record AudioContext := mkAudioContext {
  sampleRate : positive;
  closed : bool
}.

(** An [AudioBuffer]: [duration] is [length / sampleRate]. *)
Record AudioBuffer := mkAudioBuffer {
  ab_length : N;
  ab_sampleRate : positive
}.

Definition duration (b : AudioBuffer) : Q :=
  Z.of_N (ab_length b) # ab_sampleRate b.

(** An [AudioBufferSourceNode]: its identity, its buffer and the time
    given to [start]. *)
Record SourceNode := mkSourceNode {
  node_id : nat;
  buffer : AudioBuffer;
  startAt : Q
}.

(** [Set.prototype.add] and [delete] on the insertion-ordered set of
    live sources. *)
Definition hasNode (n : nat) (s : list SourceNode) : bool :=
  existsb (fun m => Nat.eqb (node_id m) n) s.

Definition setAdd (x : SourceNode) (s : list SourceNode) : list SourceNode :=
  if hasNode (node_id x) s then s else s ++ [x].

Definition setDelete (n : nat) (s : list SourceNode) : list SourceNode :=
  filter (fun m => negb (Nat.eqb (node_id m) n)) s.

(** ** Render environments and messages of the live session *)

(** The bindings of one render that [connect] and the callbacks it
    creates close over. *)
Record Render := mkRender {
  r_sourceLang : jsstring;
  r_targetLang : jsstring;
  r_isMicMuted : bool;
  r_isSpeakerMuted : bool
}.

(** [msg.serverContent]: a transcription field holds its [text] when the
    field and its text are present; [audioData] is
    [modelTurn?.parts?.[0]?.inlineData?.data]. *)
Record ServerContent := mkServerContent {
  inputTranscription : option jsstring;
  outputTranscription : option jsstring;
  turnComplete : bool;
  audioData : option jsstring;
  interrupted : bool
}.

Definition LiveServerMessage := option ServerContent.

(** ** The state of the component *)

Record AppState := mkAppState {
  (* useState *)
  connectionState : ConnectionState;
  messages : list ChatMessage;
  sourceLang : jsstring;
  targetLang : jsstring;
  isMicMuted : bool;
  isSpeakerMuted : bool;
  error_ : option jsstring;
  (* useRef *)
  inputContext : option AudioContext;
  outputContext : option AudioContext;
  scriptProcessor : option Render;
  mediaStreamSource : bool;
  nextStartTime : Q;
  audioSources : list SourceNode;
  currentInputTrans : jsstring;
  currentOutputTrans : jsstring;
  (* allocation of node identities *)
  nextNodeId : nat
}.

Definition initialState : AppState :=
  mkAppState disconnected [] (lit "vi") (lit "en") false false None
    None None None false 0 [] [] [] 0.

Definition set_connectionState v (s : AppState) :=
  mkAppState v (messages s) (sourceLang s) (targetLang s) (isMicMuted s)
    (isSpeakerMuted s) (error_ s) (inputContext s) (outputContext s)
    (scriptProcessor s) (mediaStreamSource s) (nextStartTime s)
    (audioSources s) (currentInputTrans s) (currentOutputTrans s)
    (nextNodeId s).

Definition set_messages v (s : AppState) :=
  mkAppState (connectionState s) v (sourceLang s) (targetLang s)
    (isMicMuted s) (isSpeakerMuted s) (error_ s) (inputContext s)
    (outputContext s) (scriptProcessor s) (mediaStreamSource s)
    (nextStartTime s) (audioSources s) (currentInputTrans s)
    (currentOutputTrans s) (nextNodeId s).

Definition set_langs a b (s : AppState) :=
  mkAppState (connectionState s) (messages s) a b (isMicMuted s)
    (isSpeakerMuted s) (error_ s) (inputContext s) (outputContext s)
    (scriptProcessor s) (mediaStreamSource s) (nextStartTime s)
    (audioSources s) (currentInputTrans s) (currentOutputTrans s)
    (nextNodeId s).

Definition set_isMicMuted v (s : AppState) :=
  mkAppState (connectionState s) (messages s) (sourceLang s) (targetLang s)
    v (isSpeakerMuted s) (error_ s) (inputContext s) (outputContext s)
    (scriptProcessor s) (mediaStreamSource s) (nextStartTime s)
    (audioSources s) (currentInputTrans s) (currentOutputTrans s)
    (nextNodeId s).

Definition set_isSpeakerMuted v (s : AppState) :=
  mkAppState (connectionState s) (messages s) (sourceLang s) (targetLang s)
    (isMicMuted s) v (error_ s) (inputContext s) (outputContext s)
    (scriptProcessor s) (mediaStreamSource s) (nextStartTime s)
    (audioSources s) (currentInputTrans s) (currentOutputTrans s)
    (nextNodeId s).

Definition set_error v (s : AppState) :=
  mkAppState (connectionState s) (messages s) (sourceLang s) (targetLang s)
    (isMicMuted s) (isSpeakerMuted s) v (inputContext s) (outputContext s)
    (scriptProcessor s) (mediaStreamSource s) (nextStartTime s)
    (audioSources s) (currentInputTrans s) (currentOutputTrans s)
    (nextNodeId s).

Definition set_inputContext v (s : AppState) :=
  mkAppState (connectionState s) (messages s) (sourceLang s) (targetLang s)
    (isMicMuted s) (isSpeakerMuted s) (error_ s) v (outputContext s)
    (scriptProcessor s) (mediaStreamSource s) (nextStartTime s)
    (audioSources s) (currentInputTrans s) (currentOutputTrans s)
    (nextNodeId s).

Definition set_outputContext v (s : AppState) :=
  mkAppState (connectionState s) (messages s) (sourceLang s) (targetLang s)
    (isMicMuted s) (isSpeakerMuted s) (error_ s) (inputContext s) v
    (scriptProcessor s) (mediaStreamSource s) (nextStartTime s)
    (audioSources s) (currentInputTrans s) (currentOutputTrans s)
    (nextNodeId s).

Definition set_scriptProcessor v (s : AppState) :=
  mkAppState (connectionState s) (messages s) (sourceLang s) (targetLang s)
    (isMicMuted s) (isSpeakerMuted s) (error_ s) (inputContext s)
    (outputContext s) v (mediaStreamSource s) (nextStartTime s)
    (audioSources s) (currentInputTrans s) (currentOutputTrans s)
    (nextNodeId s).

Definition set_mediaStreamSource v (s : AppState) :=
  mkAppState (connectionState s) (messages s) (sourceLang s) (targetLang s)
    (isMicMuted s) (isSpeakerMuted s) (error_ s) (inputContext s)
    (outputContext s) (scriptProcessor s) v (nextStartTime s)
    (audioSources s) (currentInputTrans s) (currentOutputTrans s)
    (nextNodeId s).

Definition set_nextStartTime v (s : AppState) :=
  mkAppState (connectionState s) (messages s) (sourceLang s) (targetLang s)
    (isMicMuted s) (isSpeakerMuted s) (error_ s) (inputContext s)
    (outputContext s) (scriptProcessor s) (mediaStreamSource s) v
    (audioSources s) (currentInputTrans s) (currentOutputTrans s)
    (nextNodeId s).

Definition set_audioSources v (s : AppState) :=
  mkAppState (connectionState s) (messages s) (sourceLang s) (targetLang s)
    (isMicMuted s) (isSpeakerMuted s) (error_ s) (inputContext s)
    (outputContext s) (scriptProcessor s) (mediaStreamSource s)
    (nextStartTime s) v (currentInputTrans s) (currentOutputTrans s)
    (nextNodeId s).

Definition set_currentInputTrans v (s : AppState) :=
  mkAppState (connectionState s) (messages s) (sourceLang s) (targetLang s)
    (isMicMuted s) (isSpeakerMuted s) (error_ s) (inputContext s)
    (outputContext s) (scriptProcessor s) (mediaStreamSource s)
    (nextStartTime s) (audioSources s) v (currentOutputTrans s)
    (nextNodeId s).

Definition set_currentOutputTrans v (s : AppState) :=
  mkAppState (connectionState s) (messages s) (sourceLang s) (targetLang s)
    (isMicMuted s) (isSpeakerMuted s) (error_ s) (inputContext s)
    (outputContext s) (scriptProcessor s) (mediaStreamSource s)
    (nextStartTime s) (audioSources s) (currentInputTrans s) v
    (nextNodeId s).

Definition set_nextNodeId v (s : AppState) :=
  mkAppState (connectionState s) (messages s) (sourceLang s) (targetLang s)
    (isMicMuted s) (isSpeakerMuted s) (error_ s) (inputContext s)
    (outputContext s) (scriptProcessor s) (mediaStreamSource s)
    (nextStartTime s) (audioSources s) (currentInputTrans s)
    (currentOutputTrans s) v.

(** ** Effects

    The [Blob] of the live API: a base64 payload and its MIME type. *)
Record Blob := mkBlob {
  data : jsstring;
  mimeType : jsstring
}.

(** What a callback does to the world outside the component.
    [ConsoleError what] is a call of [console.error]: [what] is its string
    argument, or the message of the error object it is given. *)
Inductive Effect :=
| GetUserMedia
| LiveConnect (src tgt : jsstring)
| SendRealtimeInput (media : Blob)
| ConsoleError (what : jsstring)
| NodeStart (n : SourceNode)
| NodeStop (n : nat)
| MicDisconnect
| ProcessorDisconnect
| InputContextResume
| InputContextClose
| Reload.

Definition Step := (AppState * list Effect)%type.

(** Sequencing of two parts of a callback. *)
Definition andThen (a : Step) (k : AppState -> Step) : Step :=
  let (s, e) := a in let (s', e') := k s in (s', e ++ e').

Definition pass (s : AppState) : Step := (s, []).

(** ** The engine

    [utils/audioUtils] is not part of the sources at hand: its three
    functions are parameters.  [None] stands for a thrown exception. *)

Section Engine.

Variable createAudioBlob : list Q -> Blob.
Variable base64ToUint8Array : jsstring -> option (list N).
Variable decodeAudioData : list N -> AudioContext -> option AudioBuffer.

(** *** [setupAudioContexts] *)
Definition setupAudioContexts (s : AppState) : AppState :=
  let s1 := match inputContext s with
            | None => set_inputContext (Some (mkAudioContext 16000 false)) s
            | Some _ => s
            end in
  match outputContext s1 with
  | None => set_outputContext (Some (mkAudioContext 24000 false)) s1
  | Some _ => s1
  end.

(** *** [stopAudio]; [now] is [outputContextRef.current.currentTime] *)
Definition stopSources (s : AppState) : Step :=
  (set_nextStartTime 0 (set_audioSources [] s),
   map (fun n => NodeStop (node_id n)) (audioSources s)).

Definition disconnectMic (s : AppState) : Step :=
  let a := if mediaStreamSource s
           then (set_mediaStreamSource false s, [MicDisconnect])
           else pass s in
  andThen a (fun s1 =>
    match scriptProcessor s1 with
    | Some _ => (set_scriptProcessor None s1, [ProcessorDisconnect])
    | None => pass s1
    end).

Definition closeInputContext (s : AppState) : Step :=
  match inputContext s with
  | Some c => if closed c then pass s
              else (set_inputContext None s, [InputContextClose])
  | None => pass (set_inputContext None s)
  end.

Definition resetOutputTiming (now : Q) (s : AppState) : AppState :=
  match outputContext s with
  | Some _ => set_nextStartTime now s
  | None => s
  end.

Definition stopAudio (now : Q) (s : AppState) : Step :=
  andThen (stopSources s) (fun s1 =>
  andThen (disconnectMic s1) (fun s2 =>
  andThen (closeInputContext s2) (fun s3 =>
  pass (resetOutputTiming now s3)))).

(** *** [swapLanguages] *)
Definition swapLanguages (s : AppState) : AppState :=
  match connectionState s with
  | disconnected => set_langs (targetLang s) (sourceLang s) s
  | _ => s
  end.

(** *** [connect]

    [apiKey] is [process.env.API_KEY].  [connect] is the part that runs
    up to the first [await]; [connect_stream] resumes it when
    [getUserMedia] resolves, [connect_catch] is the [catch] block, entered
    when [getUserMedia] or the session promise rejects with [message]. *)
Definition keyMissing (apiKey : option jsstring) : bool :=
  match apiKey with
  | Some k => negb (truthy k)
  | None => true
  end.

Definition connect (apiKey : option jsstring) (s : AppState) : Step :=
  if keyMissing apiKey
  then pass (set_error
               (Some (lit "Missing API Key in environment variables.")) s)
  else (setupAudioContexts
          (set_error None (set_connectionState connecting s)),
        [GetUserMedia]).

Definition connect_stream (r : Render) (s : AppState) : Step :=
  (s, [LiveConnect (r_sourceLang r) (r_targetLang r)]).

Definition connect_catch (message : option jsstring) (now : Q)
    (s : AppState) : Step :=
  let shown := match message with
               | Some m => if truthy m then m
                           else lit "Failed to start session."
               | None => lit "Failed to start session."
               end in
  andThen (set_connectionState disconnected (set_error (Some shown) s),
           [ConsoleError match message with Some m => m | None => [] end])
          (stopAudio now).

(** *** [onopen] and [onaudioprocess]

    The processor keeps the callback assigned to [onaudioprocess]; the
    callback is a closure of the render [r] in which [connect] ran, so
    [scriptProcessor] records [r]. *)
Definition onopen (r : Render) (s : AppState) : Step :=
  let s1 := set_connectionState connected s in
  match inputContext s1 with
  | Some _ =>
      (set_scriptProcessor (Some r) (set_mediaStreamSource true s1),
       [InputContextResume])
  | None => pass s1
  end.

Definition onaudioprocess (r : Render) (inputData : list Q)
    (s : AppState) : Step :=
  if r_isMicMuted r then pass s
  else (s, [SendRealtimeInput (createAudioBlob inputData)]).

(** A capture frame is delivered to the callback of the connected
    processor. *)
Definition captureFrame (inputData : list Q) (s : AppState) : Step :=
  match scriptProcessor s with
  | Some r => onaudioprocess r inputData s
  | None => pass s
  end.

(** *** [onmessage], branch by branch *)

Definition onInputTranscription (now_ms : Z) (t : option jsstring)
    (s : AppState) : AppState :=
  match t with
  | Some f =>
      if truthy f then
        let buf := currentInputTrans s ++ f in
        set_messages (updateLastMessage now_ms USER buf false (messages s))
          (set_currentInputTrans buf s)
      else s
  | None => s
  end.

Definition onOutputTranscription (now_ms : Z) (t : option jsstring)
    (s : AppState) : AppState :=
  match t with
  | Some f =>
      if truthy f then
        let buf := currentOutputTrans s ++ f in
        set_messages (updateLastMessage now_ms MODEL buf false (messages s))
          (set_currentOutputTrans buf s)
      else s
  | None => s
  end.

Definition onTurnComplete (now_ms : Z) (s : AppState) : AppState :=
  let s1 :=
    if truthy (currentInputTrans s) then
      set_currentInputTrans []
        (set_messages
           (updateLastMessage now_ms USER (currentInputTrans s) true
              (messages s)) s)
    else s in
  if truthy (currentOutputTrans s1) then
    set_currentOutputTrans []
      (set_messages
         (updateLastMessage now_ms MODEL (currentOutputTrans s1) true
            (messages s1)) s1)
  else s1.

(** The body of the [try] block: [None] when one of the two decoding
    calls throws. *)
Definition decodeInline (data : jsstring) (ctx : AudioContext)
    : option AudioBuffer :=
  match base64ToUint8Array data with
  | Some uint8Data => decodeAudioData uint8Data ctx
  | None => None
  end.

Definition schedule (now : Q) (audioBuffer : AudioBuffer)
    (s : AppState) : Step :=
  let start := Qmax (nextStartTime s) now in
  let source := mkSourceNode (nextNodeId s) audioBuffer start in
  (set_nextNodeId (S (nextNodeId s))
     (set_audioSources (setAdd source (audioSources s))
        (set_nextStartTime (start + duration audioBuffer) s)),
   [NodeStart source]).

Definition onAudioOutput (r : Render) (now : Q) (data : option jsstring)
    (s : AppState) : Step :=
  match data, outputContext s with
  | Some d, Some ctx =>
      if truthy d && negb (r_isSpeakerMuted r) then
        match decodeInline d ctx with
        | Some audioBuffer => schedule now audioBuffer s
        | None => (s, [ConsoleError (lit "Error decoding audio")])
        end
      else pass s
  | _, _ => pass s
  end.

(** [outputContextRef.current?.currentTime || 0] *)
Definition currentTimeOrZero (now : Q) (s : AppState) : Q :=
  match outputContext s with
  | Some _ => if Qeq_bool now 0 then 0 else now
  | None => 0
  end.

Definition onInterrupted (now : Q) (now_ms : Z) (s : AppState) : Step :=
  let s1 := set_nextStartTime (currentTimeOrZero now s)
              (set_audioSources [] s) in
  let s2 :=
    if truthy (currentOutputTrans s1) then
      set_currentOutputTrans []
        (set_messages
           (updateLastMessage now_ms MODEL
              (currentOutputTrans s1 ++ lit " [Interrupted]") true
              (messages s1)) s1)
    else s1 in
  (s2, map (fun n => NodeStop (node_id n)) (audioSources s)).

Definition onmessage (r : Render) (now : Q) (now_ms : Z)
    (msg : LiveServerMessage) (s : AppState) : Step :=
  match msg with
  | None => pass s
  | Some c =>
      let s1 := onInputTranscription now_ms (inputTranscription c) s in
      let s2 := onOutputTranscription now_ms (outputTranscription c) s1 in
      let s3 := if turnComplete c then onTurnComplete now_ms s2 else s2 in
      andThen (onAudioOutput r now (audioData c) s3) (fun s4 =>
        if interrupted c then onInterrupted now now_ms s4 else pass s4)
  end.

(** *** the [ended] listener of a source, [onclose], [onerror] *)
Definition onended (n : nat) (s : AppState) : AppState :=
  set_audioSources (setDelete n (audioSources s)) s.

Definition onclose (now : Q) (s : AppState) : Step :=
  stopAudio now (set_connectionState disconnected s).

Definition onerror (err : jsstring) (now : Q) (s : AppState) : Step :=
  andThen
    (set_error (Some (lit "Connection error occurred."))
       (set_connectionState error s),
     [ConsoleError err])
    (stopAudio now).

(** *** [disconnect]

    [window.location.reload()] ends this instance of the component; the
    page that loads next starts again from [initialState]. *)
Definition disconnect (now : Q) (s : AppState) : Step :=
  andThen (stopAudio now s) (fun s1 =>
    (set_connectionState disconnected s1, [Reload])).

(** ** The controls of the rendered page *)

Inductive Control :=
| StartButton
| MicButton
| EndButton
| SpeechAndTextButton
| TextOnlyButton
| SwapButton.

Definition sessionIdle (s : AppState) : bool :=
  match connectionState s with
  | disconnected | error => true
  | connecting | connected => false
  end.

Definition isConnected (s : AppState) : bool :=
  match connectionState s with connected => true | _ => false end.

(** Which controls the JSX renders, enabled, in state [s]. *)
Definition offered (s : AppState) (c : Control) : bool :=
  match c with
  | StartButton => sessionIdle s
  | MicButton | EndButton => negb (sessionIdle s)
  | SpeechAndTextButton | TextOnlyButton => isConnected s
  | SwapButton => negb (isConnected s)
  end.

(** The bindings of the render that shows state [s]. *)
Definition renderOf (s : AppState) : Render :=
  mkRender (sourceLang s) (targetLang s) (isMicMuted s) (isSpeakerMuted s).

Definition onClick (apiKey : option jsstring) (now : Q) (c : Control)
    (s : AppState) : Step :=
  match c with
  | StartButton => connect apiKey s
  | MicButton => pass (set_isMicMuted (negb (isMicMuted s)) s)
  | EndButton => disconnect now s
  | SpeechAndTextButton => pass (set_isSpeakerMuted false s)
  | TextOnlyButton => pass (set_isSpeakerMuted true s)
  | SwapButton => pass (swapLanguages s)
  end.

(** A click reaches its handler only on a control that is on the page. *)
Definition click (apiKey : option jsstring) (now : Q) (c : Control)
    (s : AppState) : Step :=
  if offered s c then onClick apiKey now c s else pass s.

(** ** Events

    Everything the browser, the user and the live session can make the
    component do.  The session callbacks come with the render [r] their
    closure was created in. *)

Variable apiKey : option jsstring.

Inductive Event :=
| Click (c : Control) (now : Q)
| StreamReady (r : Render)
| ConnectFailed (message : option jsstring) (now : Q)
| Open (r : Render)
| Message (r : Render) (now : Q) (now_ms : Z) (msg : LiveServerMessage)
| Frame (inputData : list Q)
| Ended (n : nat)
| Close (now : Q)
| Error (err : jsstring) (now : Q).

Definition handle (ev : Event) (s : AppState) : Step :=
  match ev with
  | Click c now => click apiKey now c s
  | StreamReady r => connect_stream r s
  | ConnectFailed message now => connect_catch message now s
  | Open r => onopen r s
  | Message r now now_ms msg => onmessage r now now_ms msg s
  | Frame inputData => captureFrame inputData s
  | Ended n => pass (onended n s)
  | Close now => onclose now s
  | Error err now => onerror err now s
  end.

Fixpoint run (evs : list Event) (s : AppState) : Step :=
  match evs with
  | [] => pass s
  | ev :: rest => andThen (handle ev s) (run rest)
  end.

Definition stateAfter (evs : list Event) (s : AppState) : AppState :=
  fst (run evs s).

End Engine.

(** ** The operations of the transcript, as inbound messages *)

Definition noContent : ServerContent :=
  mkServerContent None None false None false.

Definition appendDelta (r : MessageRole) (textFragment : jsstring)
    : ServerContent :=
  match r with
  | USER => mkServerContent (Some textFragment) None false None false
  | MODEL => mkServerContent None (Some textFragment) false None false
  end.

Definition sealTurn : ServerContent :=
  mkServerContent None None true None false.

Definition sealOnInterrupt : ServerContent :=
  mkServerContent None None false None true.

Definition audioChunk (d : jsstring) : ServerContent :=
  mkServerContent None None false (Some d) false.

(** The accumulation buffer of a role. *)
Definition bufferOf (r : MessageRole) (s : AppState) : jsstring :=
  match r with
  | USER => currentInputTrans s
  | MODEL => currentOutputTrans s
  end.

(** ** Observations on the log *)

Definition isOpen (r : MessageRole) (m : ChatMessage) : bool :=
  role_eqb (role m) r && negb (isFinal m).


(** The text of the entry [updateLastMessage] would update in place. *)
Definition openText (r : MessageRole) (log : list ChatMessage)
    : option jsstring :=
  match lastOf log with
  | Some m => if isOpen r m then Some (text m) else None
  | None => None
  end.

Definition sealed (suffix : jsstring) (m : ChatMessage) : ChatMessage :=
  mkChatMessage (id m) (role m) (text m ++ suffix) true (timestamp m).

(** A stop of playback: the events whose handlers run [stopAudio] or the
    interruption branch. *)
Definition stopsPlayback (ev : Event) : bool :=
  match ev with
  | Click EndButton _ | ConnectFailed _ _ | Close _ | Error _ _ => true
  | Message _ _ _ (Some c) => interrupted c
  | _ => false
  end.

(** ** The codec of [utils/audioUtils], for concrete runs *)

(** Modelled from the spec: [base64ToUint8Array], absent from the sources.
    Section 4.1 calls the payload "base64-equivalent"; this is the
    standard alphabet with [=] padding, and a character outside it (the
    case in which [atob] throws) gives [None]. *)
Definition b64digit (c : N) : option N :=
  (if (65 <=? c) && (c <=? 90) then Some (c - 65)
   else if (97 <=? c) && (c <=? 122) then Some (c - 71)
   else if (48 <=? c) && (c <=? 57) then Some (c + 4)
   else if c =? 43 then Some 62
   else if c =? 47 then Some 63
   else None)%N.

Fixpoint b64digits (s : jsstring) : option (list N) :=
  match s with
  | [] => Some []
  | c :: s' =>
      match b64digit c, b64digits s' with
      | Some d, Some ds => Some (d :: ds)
      | _, _ => None
      end
  end.

Fixpoint b64bytes (ds : list N) : option (list N) :=
  (match ds with
   | [] => Some []
   | a :: b :: c :: d :: rest =>
       match b64bytes rest with
       | Some t =>
           Some (a * 4 + b / 16 :: (b mod 16) * 16 + c / 4
                 :: (c mod 4) * 64 + d :: t)
       | None => None
       end
   | [a; b; c] => Some [a * 4 + b / 16; (b mod 16) * 16 + c / 4]
   | [a; b] => Some [a * 4 + b / 16]
   | [_] => None
   end)%N.

Definition specBase64ToUint8Array (s : jsstring) : option (list N) :=
  match b64digits (rev (dropWhile (N.eqb 61) (rev s))) with
  | Some ds => b64bytes ds
  | None => None
  end.

(** Modelled from the spec: [decodeAudioData], absent from the sources.
    "Fails with DecodeError if byte length is not a multiple of 2"; one
    sample per two bytes, stamped with the rate of the output context,
    [durationSeconds = sampleCount / outputRate]. *)
Definition specDecodeAudioData (bytes : list N) (ctx : AudioContext)
    : option AudioBuffer :=
  if Nat.even (List.length bytes)
  then Some (mkAudioBuffer (N.of_nat (Nat.div2 (List.length bytes)))
              (sampleRate ctx))
  else None.

(** Modelled from the spec: [createAudioBlob], absent from the sources.
    Section 4.1: each sample goes to [round(clamp(sample,-1,1) * 32767)],
    a signed 16-bit integer written low byte first; the bytes are wrapped
    in base64 and tagged [audio/pcm;rate=16000]. *)
Definition clamp (q : Q) : Q :=
  if Qle_bool q (-1) then -1 else if Qle_bool 1 q then 1 else q.

Definition toInt16 (q : Q) : Z := Qfloor (clamp q * 32767 + (1 # 2)).

Definition int16Bytes (v : Z) : list N :=
  let u := (v mod 65536)%Z in
  [Z.to_N (u mod 256)%Z; Z.to_N (u / 256)%Z].

Definition b64char (d : N) : N :=
  (if d <? 26 then d + 65
   else if d <? 52 then d + 71
   else if d <? 62 then d - 4
   else if d =? 62 then 43
   else 47)%N.

Fixpoint b64encode (bytes : list N) : jsstring :=
  (match bytes with
   | [] => []
   | a :: b :: c :: rest =>
       b64char (a / 4) :: b64char ((a mod 4) * 16 + b / 16)
       :: b64char ((b mod 16) * 4 + c / 64) :: b64char (c mod 64)
       :: b64encode rest
   | [a; b] =>
       [b64char (a / 4); b64char ((a mod 4) * 16 + b / 16);
        b64char ((b mod 16) * 4); 61]
   | [a] => [b64char (a / 4); b64char ((a mod 4) * 16); 61; 61]
   end)%N.

Definition specCreateAudioBlob (samples : list Q) : Blob :=
  mkBlob (b64encode (flat_map (fun q => int16Bytes (toInt16 q)) samples))
    (lit "audio/pcm;rate=16000").

(** ** Concrete runs *)

Definition demoKey : option jsstring := Some (lit "k").

Definition demoRender : Render := renderOf initialState.

Definition demoHandle : Event -> AppState -> Step :=
  handle specCreateAudioBlob specBase64ToUint8Array specDecodeAudioData
    demoKey.

Definition demoAfter (evs : list Event) (s : AppState) : AppState :=
  stateAfter specCreateAudioBlob specBase64ToUint8Array specDecodeAudioData
    demoKey evs s.

Definition inbound (now_ms : Z) (c : ServerContent) : Event :=
  Message demoRender 0 now_ms (Some c).

(** A session that has been started and opened from the first render. *)
Definition openedSession : AppState :=
  demoAfter [Click StartButton 0; StreamReady demoRender; Open demoRender]
    initialState.

(** Six bytes, three samples; and three bytes, which do not decode. *)
Definition threeSamples : jsstring := lit "AAAAAAAA".
Definition oddBytes : jsstring := lit "AAAA".

(** The output context that [connect] creates. *)
Definition demoContext : AudioContext := mkAudioContext 24000 false.

(** A session with two live sources. *)
Definition playingSession : AppState :=
  demoAfter [inbound 1 (audioChunk threeSamples);
             inbound 2 (audioChunk threeSamples)] openedSession.

(** "Hola, " followed by U+00BF, "c", U+00F3, "mo". *)
Definition hola : jsstring :=
  lit "Hola, " ++ [191%N] ++ lit "c" ++ [243%N] ++ lit "mo".

Close Scope Q_scope.
Unset Implicit Arguments.

(** ** Predicates used in the proofs *)

(** The three ways [updateLastMessage] can end. *)
Inductive UpdateView (now_ms : Z) (r : MessageRole) (t : jsstring)
    (fin : bool) (prev : list ChatMessage) : list ChatMessage -> Prop :=
| InPlace l m :
    prev = l ++ [m] -> isOpen r m = true ->
    UpdateView now_ms r t fin prev
      (l ++ [mkChatMessage (id m) (role m) t fin (timestamp m)])
| Pushed :
    openText r prev = None -> nonblank t = true ->
    UpdateView now_ms r t fin prev (prev ++ [newMessage now_ms r t fin])
| Skipped :
    openText r prev = None -> nonblank t = false ->
    UpdateView now_ms r t fin prev prev.

(** The last entry, while open, shows the buffer of its role, and that
    text is not blank. *)
Definition coherent (log : list ChatMessage) (buf : MessageRole -> jsstring)
    : Prop :=
  forall l m, log = l ++ [m] -> isFinal m = false ->
    buf (role m) = text m /\ nonblank (text m) = true.

Definition Coherent (s : AppState) : Prop :=
  coherent (messages s) (fun r => bufferOf r s).



Definition otherRole (r : MessageRole) : MessageRole :=
  match r with USER => MODEL | MODEL => USER end.

(** A handler that leaves the log and both buffers alone. *)
Definition sameTranscript (s s' : AppState) : Prop :=
  messages s' = messages s
  /\ currentInputTrans s' = currentInputTrans s
  /\ currentOutputTrans s' = currentOutputTrans s.

(** Every entry of [log] is still in [log'] at its index, with its
    identity, role and timestamp, and unchanged if it was final. *)
Definition keepsEntries (log log' : list ChatMessage) : Prop :=
  forall i m, nth_error log i = Some m ->
    exists m', nth_error log' i = Some m'
      /\ id m' = id m /\ role m' = role m /\ timestamp m' = timestamp m
      /\ (isFinal m = true -> m' = m).

(** The last entry, if any, is final. *)
Definition lastFinal (log : list ChatMessage) : Prop :=
  forall l m, log = l ++ [m] -> isFinal m = true.

(** Where a run of fragments for [rho] stands: the buffer holds [b]; the
    log is still [base] while [b] is blank, and [base] followed by one open
    entry showing [b] afterwards. *)
Definition Accum (rho : MessageRole) (base : list ChatMessage)
    (b : jsstring) (s : AppState) : Prop :=
  bufferOf rho s = b
  /\ openText rho base = None
  /\ (if nonblank b
      then exists m, messages s = base ++ [m]
             /\ role m = rho /\ isFinal m = false /\ text m = b
      else messages s = base).

(** One half of the turn-complete branch, on the log alone. *)
Definition sealLog (now_ms : Z) (r : MessageRole) (b : jsstring)
    (log : list ChatMessage) : list ChatMessage :=
  if truthy b then updateLastMessage now_ms r b true log else log.


(** A message with its inline audio taken out. *)
Definition withoutAudio (c : ServerContent) : ServerContent :=
  mkServerContent (inputTranscription c) (outputTranscription c)
    (turnComplete c) None (interrupted c).





Definition deltaEvent (r : Render) (now : Q) (rho : MessageRole)
    (f : Z * jsstring) : Event :=
  Message r now (fst f) (Some (appendDelta rho (snd f))).

(** ** constants.ts and the language selectors *)

Record Language := mkLanguage {
  code : jsstring;
  name : jsstring;
  flag : jsstring
}.

(** A flag emoji: the two regional-indicator symbols of a country code,
    each a surrogate pair. *)
Definition flagOf (country : string) : jsstring :=
  flat_map (fun a => [55356; 56806 + (N_of_ascii a - 65)]%N)
    (list_ascii_of_string country).

Definition SUPPORTED_LANGUAGES : list Language :=
  [mkLanguage (lit "en") (lit "English") (flagOf "US");
   mkLanguage (lit "vi") (lit "Vietnamese") (flagOf "VN");
   mkLanguage (lit "ja") (lit "Japanese") (flagOf "JP");
   mkLanguage (lit "ko") (lit "Korean") (flagOf "KR");
   mkLanguage (lit "es") (lit "Spanish") (flagOf "ES");
   mkLanguage (lit "fr") (lit "French") (flagOf "FR");
   mkLanguage (lit "de") (lit "German") (flagOf "DE");
   mkLanguage (lit "zh") (lit "Chinese") (flagOf "CN")].

(** [LanguageSelector]: one [option] per supported language, whose value
    is the code; [onChange] hands the value of the chosen option, the
    [i]-th, to [onSelect].  A disabled [select] takes no input. *)
Definition optionValue (i : nat) : option jsstring :=
  option_map code (nth_error SUPPORTED_LANGUAGES i).

Definition selectorDisabled (s : AppState) : bool := isConnected s.

Definition onSelectSource (i : nat) (s : AppState) : AppState :=
  if selectorDisabled s then s
  else match optionValue i with
       | Some c => set_langs c (targetLang s) s
       | None => s
       end.

Definition onSelectTarget (i : nat) (s : AppState) : AppState :=
  if selectorDisabled s then s
  else match optionValue i with
       | Some c => set_langs (sourceLang s) c s
       | None => s
       end.

Definition supported (c : jsstring) : Prop :=
  In c (map code SUPPORTED_LANGUAGES).

(** ** The page: the engine events and the two selectors *)

Section Page.

Variable createAudioBlob : list Q -> Blob.
Variable base64ToUint8Array : jsstring -> option (list N).
Variable decodeAudioData : list N -> AudioContext -> option AudioBuffer.
Variable apiKey : option jsstring.

Inductive PageEvent :=
| Engine (ev : Event)
| SelectSource (i : nat)
| SelectTarget (i : nat).

Definition handlePage (ev : PageEvent) (s : AppState) : AppState :=
  match ev with
  | Engine e =>
      fst (handle createAudioBlob base64ToUint8Array decodeAudioData apiKey
             e s)
  | SelectSource i => onSelectSource i s
  | SelectTarget i => onSelectTarget i s
  end.

Definition pageAfter (evs : list PageEvent) (s : AppState) : AppState :=
  fold_left (fun st ev => handlePage ev st) evs s.

End Page.

(** ** Further predicates *)


(** When a scheduled source stops sounding. *)
Definition endOf (n : SourceNode) : Q := (startAt n + duration (buffer n))%Q.

Definition before (a b : SourceNode) : Prop := (endOf a <= startAt b)%Q.

Definition olderThan (a b : SourceNode) : Prop := node_id a < node_id b.

(** The live sources are in the order they were started, none starts
    before the one ahead of it has ended, the clock is not before the end
    of any of them, and their identities are the ones handed out so far. *)
Definition PlaybackOk (s : AppState) : Prop :=
  StronglySorted before (audioSources s)
  /\ StronglySorted olderThan (audioSources s)
  /\ Forall (fun a => (endOf a <= nextStartTime s)%Q) (audioSources s)
  /\ Forall (fun a => node_id a < nextNodeId s) (audioSources s).

(** A handler that leaves playback alone. *)
Definition samePlayback (s s' : AppState) : Prop :=
  audioSources s' = audioSources s
  /\ nextStartTime s' = nextStartTime s
  /\ nextNodeId s' = nextNodeId s.

(** The contexts are the ones [setupAudioContexts] creates. *)
Definition ContextsOk (s : AppState) : Prop :=
  (forall c, inputContext s = Some c -> c = mkAudioContext 16000 false)
  /\ (forall c, outputContext s = Some c -> c = mkAudioContext 24000 false).

Definition noBlankEntry (log : list ChatMessage) : Prop :=
  Forall (fun m => nonblank (text m) = true) log.

Definition languagesOk (s : AppState) : Prop :=
  supported (sourceLang s) /\ supported (targetLang s).

(** ** Fragments of both roles *)

(** A fragment for either role, with [Date.now()]. *)
Definition roleDelta (r : Render) (now : Q)
    (d : Z * (MessageRole * jsstring)) : Event :=
  Message r now (fst d) (Some (appendDelta (fst (snd d)) (snd (snd d)))).

(** The fragments of [ds] that are for [rho], joined in order. *)
Definition fragmentsFor (rho : MessageRole)
    (ds : list (Z * (MessageRole * jsstring))) : jsstring :=
  List.concat
    (map (fun d => if role_eqb (fst (snd d)) rho then snd (snd d) else [])
       ds).

(** What the open last entry of [rho], if any, shows: the buffer [b],
    which is then not blank. *)
Definition shows (rho : MessageRole) (b : jsstring)
    (log : list ChatMessage) : Prop :=
  match openText rho log with
  | Some x => x = b /\ nonblank x = true
  | None => True
  end.

Definition tracks (rho : MessageRole) (b : jsstring) (s : AppState) : Prop :=
  bufferOf rho s = b /\ shows rho b (messages s).

(** * Properties *)

(** ** Strings and lists *)

Lemma existsb_dropWhile (p : N -> bool) (s : jsstring) :
  existsb (fun c => negb (p c)) (dropWhile p s)
  = existsb (fun c => negb (p c)) s.
Proof.
  induction s as [|c s IH]; simpl; [reflexivity|].
  destruct (p c) eqn:E; simpl; [exact IH | rewrite E; reflexivity].
Qed.

Lemma existsb_rev_eq (A : Type) (q : A -> bool) (l : list A) :
  existsb q (rev l) = existsb q l.
Proof.
  induction l as [|a l IH]; simpl; [reflexivity|].
  rewrite existsb_app, IH; simpl.
  rewrite orb_false_r. apply orb_comm.
Qed.

Lemma dropWhile_length (p : N -> bool) (s : jsstring) :
  (0 <? List.length (dropWhile p s))
  = existsb (fun c => negb (p c)) (dropWhile p s).
Proof.
  induction s as [|c s IH]; simpl; [reflexivity|].
  destruct (p c) eqn:E; [exact IH | simpl; rewrite E; reflexivity].
Qed.

Lemma nonblank_existsb (s : jsstring) :
  nonblank s = existsb (fun c => negb (is_ws c)) s.
Proof.
  unfold nonblank, trim.
  rewrite length_rev, dropWhile_length, existsb_dropWhile.
  rewrite existsb_rev_eq. apply existsb_dropWhile.
Qed.

Lemma nonblank_app_l (a b : jsstring) :
  nonblank a = true -> nonblank (a ++ b) = true.
Proof.
  rewrite !nonblank_existsb, existsb_app. intros ->. reflexivity.
Qed.

Lemma nonblank_truthy (s : jsstring) : nonblank s = true -> truthy s = true.
Proof. destruct s; [discriminate | reflexivity]. Qed.

Lemma lastOf_snoc (l : list ChatMessage) (m : ChatMessage) :
  lastOf (l ++ [m]) = Some m.
Proof. unfold lastOf. rewrite rev_unit. reflexivity. Qed.

Lemma lastOf_None (log : list ChatMessage) : lastOf log = None -> log = [].
Proof.
  destruct log as [|a log] using rev_ind; [reflexivity|].
  rewrite lastOf_snoc. discriminate.
Qed.

Lemma lastOf_Some (log : list ChatMessage) (m : ChatMessage) :
  lastOf log = Some m -> exists l, log = l ++ [m].
Proof.
  destruct log as [|a log] using rev_ind; [discriminate|].
  rewrite lastOf_snoc. intros [= ->]. now exists log.
Qed.

Lemma snoc_inj (A : Type) (l l' : list A) (m m' : A) :
  l ++ [m] = l' ++ [m'] -> l = l' /\ m = m'.
Proof. intros H. apply app_inj_tail in H. exact H. Qed.

Lemma role_eqb_eq (a b : MessageRole) : role_eqb a b = true <-> a = b.
Proof. destruct a, b; simpl; split; congruence. Qed.

Lemma role_eqb_refl (a : MessageRole) : role_eqb a a = true.
Proof. destruct a; reflexivity. Qed.

Lemma isOpen_inv (r : MessageRole) (m : ChatMessage) :
  isOpen r m = true -> role m = r /\ isFinal m = false.
Proof.
  unfold isOpen. intros H. apply andb_prop in H as [H1 H2].
  apply role_eqb_eq in H1. apply negb_true_iff in H2. now split.
Qed.

Lemma openText_snoc (r : MessageRole) (l : list ChatMessage)
    (m : ChatMessage) :
  openText r (l ++ [m]) = if isOpen r m then Some (text m) else None.
Proof. unfold openText. rewrite lastOf_snoc. reflexivity. Qed.

(** ** [updateLastMessage] *)

Lemma updateLastMessage_view (now_ms : Z) (r : MessageRole) (t : jsstring)
    (fin : bool) (prev : list ChatMessage) :
  UpdateView now_ms r t fin prev (updateLastMessage now_ms r t fin prev).
Proof.
  unfold updateLastMessage, appendIfText.
  destruct (lastOf prev) as [m|] eqn:L.
  - destruct (lastOf_Some _ _ L) as [l ->].
    fold (isOpen r m). destruct (isOpen r m) eqn:O.
    + rewrite removelast_last. now apply InPlace.
    + assert (openText r (l ++ [m]) = None)
        by (rewrite openText_snoc, O; reflexivity).
      destruct (nonblank t) eqn:B; [now apply Pushed | now apply Skipped].
  - assert (openText r prev = None) by (unfold openText; now rewrite L).
    destruct (nonblank t) eqn:B; [now apply Pushed | now apply Skipped].
Qed.

Lemma open_other_role (r : MessageRole) (l : list ChatMessage)
    (m : ChatMessage) :
  openText r (l ++ [m]) = None -> isFinal m = false -> role m <> r.
Proof.
  rewrite openText_snoc. unfold isOpen. intros H F E.
  rewrite E, role_eqb_refl, F in H. discriminate.
Qed.

Lemma coherent_final (now_ms : Z) (r : MessageRole) (t : jsstring)
    (log : list ChatMessage) (buf buf' : MessageRole -> jsstring) :
  coherent log buf ->
  (forall r', r' <> r -> buf' r' = buf r') ->
  coherent (updateLastMessage now_ms r t true log) buf'.
Proof.
  intros C Hbuf l0 m0 E F.
  destruct (updateLastMessage_view now_ms r t true log) as [l m -> O|O B|O B].
  - apply snoc_inj in E as [_ <-]. discriminate.
  - apply snoc_inj in E as [_ <-]. discriminate.
  - subst log. rewrite Hbuf; [now apply (C l0) |].
    eapply open_other_role; eassumption.
Qed.

Lemma coherent_open (now_ms : Z) (r : MessageRole) (f : jsstring)
    (log : list ChatMessage) (buf buf' : MessageRole -> jsstring) :
  coherent log buf ->
  (forall r', r' <> r -> buf' r' = buf r') ->
  buf' r = buf r ++ f ->
  coherent (updateLastMessage now_ms r (buf r ++ f) false log) buf'.
Proof.
  intros C Hbuf Hr l0 m0 E F.
  destruct (updateLastMessage_view now_ms r (buf r ++ f) false log)
    as [l m -> O|O B|O B].
  - apply snoc_inj in E as [_ <-]. simpl.
    apply isOpen_inv in O as [R Fm].
    destruct (C l m eq_refl Fm) as [Cb Cn].
    rewrite R in *. split; [exact Hr|].
    apply nonblank_app_l. now rewrite Cb.
  - apply snoc_inj in E as [_ <-]. simpl. now split.
  - subst log. rewrite Hbuf; [now apply (C l0) |].
    eapply open_other_role; eassumption.
Qed.

(** Entries already in the log keep their place, identity and role; a
    final one is kept whole. *)
Lemma updateLastMessage_keeps (now_ms : Z) (r : MessageRole) (t : jsstring)
    (fin : bool) (log : list ChatMessage) (i : nat) (m : ChatMessage) :
  nth_error log i = Some m ->
  exists m', nth_error (updateLastMessage now_ms r t fin log) i = Some m'
    /\ id m' = id m /\ role m' = role m /\ timestamp m' = timestamp m
    /\ (isFinal m = true -> m' = m).
Proof.
  intros H.
  destruct (updateLastMessage_view now_ms r t fin log) as [l x -> O|O B|O B].
  - destruct (Nat.lt_ge_cases i (List.length l)) as [Lt|Ge].
    + rewrite nth_error_app1 in * by exact Lt. exists m. now repeat split.
    + rewrite nth_error_app2 in * by exact Ge.
      destruct (i - List.length l) as [|k]; simpl in *.
      * injection H as <-. eexists. split; [reflexivity|].
        repeat split. intros Fx. apply isOpen_inv in O as [_ Fo].
        congruence.
      * destruct k; discriminate.
  - exists m. rewrite nth_error_app1; [now repeat split|].
    apply nth_error_Some. congruence.
  - exists m. now repeat split.
Qed.

Lemma updateLastMessage_length (now_ms : Z) (r : MessageRole)
    (t : jsstring) (fin : bool) (log : list ChatMessage) :
  List.length log <= List.length (updateLastMessage now_ms r t fin log).
Proof.
  destruct (updateLastMessage_view now_ms r t fin log) as [l x -> O|O B|O B];
    rewrite ?length_app; simpl; lia.
Qed.




(** ** The handlers and the transcript *)

Lemma fst_andThen (a : Step) (k : AppState -> Step) :
  fst (andThen a k) = fst (k (fst a)).
Proof. destruct a as [s e]. simpl. now destruct (k s). Qed.

Lemma snd_andThen (a : Step) (k : AppState -> Step) :
  snd (andThen a k) = snd a ++ snd (k (fst a)).
Proof. destruct a as [s e]. simpl. now destruct (k s). Qed.

Lemma sameTranscript_refl (s : AppState) : sameTranscript s s.
Proof. now repeat split. Qed.

Lemma sameTranscript_trans (s1 s2 s3 : AppState) :
  sameTranscript s1 s2 -> sameTranscript s2 s3 -> sameTranscript s1 s3.
Proof. unfold sameTranscript. intuition congruence. Qed.

Lemma sameTranscript_Coherent (s s' : AppState) :
  sameTranscript s s' -> Coherent s -> Coherent s'.
Proof.
  intros (M & I & O) C l m E F. unfold Coherent, coherent in C.
  rewrite M in E. destruct (C l m E F) as [B T]. split; [|exact T].
  rewrite <- B. destruct (role m); simpl; congruence.
Qed.

Lemma stopSources_sameTranscript (s : AppState) :
  sameTranscript s (fst (stopSources s)).
Proof. now repeat split. Qed.

Lemma disconnectMic_sameTranscript (s : AppState) :
  sameTranscript s (fst (disconnectMic s)).
Proof.
  unfold disconnectMic. rewrite fst_andThen.
  destruct (mediaStreamSource s); simpl;
    destruct (scriptProcessor s); simpl; now repeat split.
Qed.

Lemma closeInputContext_sameTranscript (s : AppState) :
  sameTranscript s (fst (closeInputContext s)).
Proof.
  unfold closeInputContext.
  destruct (inputContext s) as [c|]; [destruct (closed c)|]; simpl;
    now repeat split.
Qed.

Lemma resetOutputTiming_sameTranscript (now : Q) (s : AppState) :
  sameTranscript s (resetOutputTiming now s).
Proof.
  unfold resetOutputTiming. destruct (outputContext s); now repeat split.
Qed.

Lemma stopAudio_sameTranscript (now : Q) (s : AppState) :
  sameTranscript s (fst (stopAudio now s)).
Proof.
  unfold stopAudio. rewrite !fst_andThen. simpl.
  eapply sameTranscript_trans; [apply stopSources_sameTranscript|].
  eapply sameTranscript_trans; [apply disconnectMic_sameTranscript|].
  eapply sameTranscript_trans; [apply closeInputContext_sameTranscript|].
  apply resetOutputTiming_sameTranscript.
Qed.

Lemma setupAudioContexts_sameTranscript (s : AppState) :
  sameTranscript s (setupAudioContexts s).
Proof.
  unfold setupAudioContexts.
  destruct (inputContext s); simpl; destruct (outputContext s); simpl;
    now repeat split.
Qed.

Lemma click_sameTranscript (apiKey : option jsstring) (now : Q)
    (c : Control) (s : AppState) :
  sameTranscript s (fst (click apiKey now c s)).
Proof.
  unfold click. destruct (offered s c); [|apply sameTranscript_refl].
  destruct c; simpl; try now repeat split.
  - unfold connect. destruct (keyMissing apiKey); simpl;
      [now repeat split|].
    eapply sameTranscript_trans; [|apply setupAudioContexts_sameTranscript].
    now repeat split.
  - unfold disconnect. rewrite fst_andThen. simpl.
    apply stopAudio_sameTranscript.
  - unfold swapLanguages. destruct (connectionState s); now repeat split.
Qed.

(** ** The inbound-message handler keeps the log coherent *)

Lemma onInputTranscription_Coherent (now_ms : Z) (t : option jsstring)
    (s : AppState) :
  Coherent s -> Coherent (onInputTranscription now_ms t s).
Proof.
  intros C. unfold onInputTranscription.
  destruct t as [f|]; [destruct (truthy f)|]; try exact C.
  unfold Coherent. simpl.
  apply (@coherent_open now_ms USER f (messages s) (fun r => bufferOf r s));
    [exact C | | reflexivity].
  now intros [|].
Qed.

Lemma onOutputTranscription_Coherent (now_ms : Z) (t : option jsstring)
    (s : AppState) :
  Coherent s -> Coherent (onOutputTranscription now_ms t s).
Proof.
  intros C. unfold onOutputTranscription.
  destruct t as [f|]; [destruct (truthy f)|]; try exact C.
  unfold Coherent. simpl.
  apply (@coherent_open now_ms MODEL f (messages s) (fun r => bufferOf r s));
    [exact C | | reflexivity].
  now intros [|].
Qed.

Lemma onTurnComplete_Coherent (now_ms : Z) (s : AppState) :
  Coherent s -> Coherent (onTurnComplete now_ms s).
Proof.
  intros C. unfold onTurnComplete.
  set (s1 := if truthy (currentInputTrans s) then _ else s).
  assert (C1 : Coherent s1).
  { subst s1. destruct (truthy (currentInputTrans s)); [|exact C].
    unfold Coherent. simpl.
    apply coherent_final with (buf := fun r => bufferOf r s);
      [exact C | now intros [|]]. }
  destruct (truthy (currentOutputTrans s1)); [|exact C1].
  unfold Coherent. simpl.
  apply coherent_final with (buf := fun r => bufferOf r s1);
    [exact C1 | now intros [|]].
Qed.

Lemma onInterrupted_Coherent (now : Q) (now_ms : Z) (s : AppState) :
  Coherent s -> Coherent (fst (onInterrupted now now_ms s)).
Proof.
  intros C. unfold onInterrupted. simpl.
  destruct (truthy (currentOutputTrans s)); [|exact C].
  unfold Coherent. simpl.
  apply coherent_final with (buf := fun r => bufferOf r s);
    [exact C | now intros [|]].
Qed.

Lemma schedule_sameTranscript (now : Q) (b : AudioBuffer) (s : AppState) :
  sameTranscript s (fst (schedule now b s)).
Proof. now repeat split. Qed.

Section Properties.

Variable createAudioBlob : list Q -> Blob.
Variable base64ToUint8Array : jsstring -> option (list N).
Variable decodeAudioData : list N -> AudioContext -> option AudioBuffer.
Variable apiKey : option jsstring.

Local Abbreviation onAudioOutput' :=
  (onAudioOutput base64ToUint8Array decodeAudioData).
Local Abbreviation onmessage' := (onmessage base64ToUint8Array decodeAudioData).
Local Abbreviation handle' :=
  (handle createAudioBlob base64ToUint8Array decodeAudioData apiKey).
Local Abbreviation run' :=
  (run createAudioBlob base64ToUint8Array decodeAudioData apiKey).
Local Abbreviation stateAfter' :=
  (stateAfter createAudioBlob base64ToUint8Array decodeAudioData apiKey).

Lemma onAudioOutput_sameTranscript (r : Render) (now : Q)
    (d : option jsstring) (s : AppState) :
  sameTranscript s (fst (onAudioOutput' r now d s)).
Proof.
  unfold onAudioOutput.
  destruct d as [d|]; [|apply sameTranscript_refl].
  destruct (outputContext s) as [ctx|]; [|apply sameTranscript_refl].
  destruct (truthy d && negb (r_isSpeakerMuted r));
    [|apply sameTranscript_refl].
  destruct (decodeInline _ _ d ctx);
    [apply schedule_sameTranscript | apply sameTranscript_refl].
Qed.

Lemma onmessage_Coherent (r : Render) (now : Q) (now_ms : Z)
    (msg : LiveServerMessage) (s : AppState) :
  Coherent s -> Coherent (fst (onmessage' r now now_ms msg s)).
Proof.
  intros C. destruct msg as [c|]; [|exact C].
  unfold onmessage. rewrite fst_andThen.
  set (s3 := if turnComplete c then _ else _).
  assert (C3 : Coherent s3).
  { subst s3. destruct (turnComplete c);
      [apply onTurnComplete_Coherent|];
      now apply onOutputTranscription_Coherent,
                onInputTranscription_Coherent. }
  assert (C4 : Coherent (fst (onAudioOutput' r now (audioData c) s3)))
    by (eapply sameTranscript_Coherent;
        [apply onAudioOutput_sameTranscript | exact C3]).
  destruct (interrupted c); [now apply onInterrupted_Coherent | exact C4].
Qed.

Lemma handle_Coherent (ev : Event) (s : AppState) :
  Coherent s -> Coherent (fst (handle' ev s)).
Proof.
  intros C. destruct ev; simpl.
  - eapply sameTranscript_Coherent; [apply click_sameTranscript | exact C].
  - exact C.
  - unfold connect_catch. rewrite fst_andThen. simpl.
    eapply sameTranscript_Coherent; [apply stopAudio_sameTranscript|].
    exact C.
  - unfold onopen. simpl. destruct (inputContext s); exact C.
  - now apply onmessage_Coherent.
  - unfold captureFrame, onaudioprocess.
    destruct (scriptProcessor s) as [r|]; [destruct (r_isMicMuted r)|];
      exact C.
  - exact C.
  - unfold onclose.
    eapply sameTranscript_Coherent; [apply stopAudio_sameTranscript|].
    exact C.
  - unfold onerror. rewrite fst_andThen. simpl.
    eapply sameTranscript_Coherent; [apply stopAudio_sameTranscript|].
    exact C.
Qed.

Lemma stateAfter_cons (ev : Event) (evs : list Event) (s : AppState) :
  stateAfter' (ev :: evs) s = stateAfter' evs (fst (handle' ev s)).
Proof. unfold stateAfter. simpl. apply fst_andThen. Qed.

Lemma stateAfter_app (evs evs' : list Event) (s : AppState) :
  stateAfter' (evs ++ evs') s = stateAfter' evs' (stateAfter' evs s).
Proof.
  revert s. induction evs as [|ev evs IH]; intros s; [reflexivity|].
  rewrite <- app_comm_cons, !stateAfter_cons. apply IH.
Qed.

Lemma stateAfter_Coherent (evs : list Event) (s : AppState) :
  Coherent s -> Coherent (stateAfter' evs s).
Proof.
  revert s. induction evs as [|ev evs IH]; intros s C; [exact C|].
  rewrite stateAfter_cons. now apply IH, handle_Coherent.
Qed.

Lemma initialState_Coherent : Coherent initialState.
Proof. intros l m E. now destruct l. Qed.

(** ** Entries stay where they are *)

Lemma keepsEntries_refl (log : list ChatMessage) : keepsEntries log log.
Proof. intros i m H. exists m. now repeat split. Qed.

Lemma keepsEntries_trans (a b c : list ChatMessage) :
  keepsEntries a b -> keepsEntries b c -> keepsEntries a c.
Proof.
  intros AB BC i m H.
  destruct (AB i m H) as (m1 & H1 & I1 & R1 & T1 & F1).
  destruct (BC i m1 H1) as (m2 & H2 & I2 & R2 & T2 & F2).
  exists m2. repeat split; try congruence.
  intros F. pose proof (F1 F) as E1. subst m1. now apply F2.
Qed.

Lemma keepsEntries_update (now_ms : Z) (r : MessageRole) (t : jsstring)
    (fin : bool) (log : list ChatMessage) :
  keepsEntries log (updateLastMessage now_ms r t fin log).
Proof. intros i m H. now apply updateLastMessage_keeps. Qed.

Lemma keepsEntries_same (s s' : AppState) :
  sameTranscript s s' -> keepsEntries (messages s) (messages s').
Proof. intros (-> & _). apply keepsEntries_refl. Qed.

Lemma onInputTranscription_keeps (now_ms : Z) (t : option jsstring)
    (s : AppState) :
  keepsEntries (messages s) (messages (onInputTranscription now_ms t s)).
Proof.
  unfold onInputTranscription.
  destruct t as [f|]; [destruct (truthy f)|]; simpl;
    auto using keepsEntries_refl, keepsEntries_update.
Qed.

Lemma onOutputTranscription_keeps (now_ms : Z) (t : option jsstring)
    (s : AppState) :
  keepsEntries (messages s) (messages (onOutputTranscription now_ms t s)).
Proof.
  unfold onOutputTranscription.
  destruct t as [f|]; [destruct (truthy f)|]; simpl;
    auto using keepsEntries_refl, keepsEntries_update.
Qed.

Lemma onTurnComplete_keeps (now_ms : Z) (s : AppState) :
  keepsEntries (messages s) (messages (onTurnComplete now_ms s)).
Proof.
  unfold onTurnComplete.
  set (s1 := if truthy (currentInputTrans s) then _ else s).
  assert (K1 : keepsEntries (messages s) (messages s1))
    by (subst s1; destruct (truthy (currentInputTrans s)); simpl;
        auto using keepsEntries_refl, keepsEntries_update).
  eapply keepsEntries_trans; [exact K1|].
  destruct (truthy (currentOutputTrans s1)); simpl;
    auto using keepsEntries_refl, keepsEntries_update.
Qed.

Lemma onInterrupted_keeps (now : Q) (now_ms : Z) (s : AppState) :
  keepsEntries (messages s) (messages (fst (onInterrupted now now_ms s))).
Proof.
  unfold onInterrupted. simpl.
  destruct (truthy (currentOutputTrans s)); simpl;
    auto using keepsEntries_refl, keepsEntries_update.
Qed.

Lemma onmessage_keeps (r : Render) (now : Q) (now_ms : Z)
    (msg : LiveServerMessage) (s : AppState) :
  keepsEntries (messages s) (messages (fst (onmessage' r now now_ms msg s))).
Proof.
  destruct msg as [c|]; [|apply keepsEntries_refl].
  unfold onmessage. rewrite fst_andThen.
  set (s1 := onInputTranscription now_ms (inputTranscription c) s).
  set (s2 := onOutputTranscription now_ms (outputTranscription c) s1).
  set (s3 := if turnComplete c then _ else _).
  set (s4 := fst (onAudioOutput' r now (audioData c) s3)).
  assert (K3 : keepsEntries (messages s) (messages s3)).
  { eapply keepsEntries_trans; [apply onInputTranscription_keeps|].
    eapply keepsEntries_trans; [apply onOutputTranscription_keeps|].
    subst s3. destruct (turnComplete c);
      [apply onTurnComplete_keeps | apply keepsEntries_refl]. }
  assert (K4 : keepsEntries (messages s) (messages s4)).
  { eapply keepsEntries_trans; [exact K3|].
    apply keepsEntries_same, onAudioOutput_sameTranscript. }
  destruct (interrupted c); [|exact K4].
  eapply keepsEntries_trans; [exact K4 | apply onInterrupted_keeps].
Qed.

Lemma handle_sameTranscript (ev : Event) (s : AppState) :
  (forall r now now_ms msg, ev <> Message r now now_ms msg) ->
  sameTranscript s (fst (handle' ev s)).
Proof.
  intros NM. destruct ev; simpl.
  - apply click_sameTranscript.
  - apply sameTranscript_refl.
  - unfold connect_catch. rewrite fst_andThen. simpl.
    eapply sameTranscript_trans; [|apply stopAudio_sameTranscript].
    now repeat split.
  - unfold onopen. simpl. destruct (inputContext s); now repeat split.
  - now destruct (NM r now now_ms msg).
  - unfold captureFrame, onaudioprocess.
    destruct (scriptProcessor s) as [r|]; [destruct (r_isMicMuted r)|];
      apply sameTranscript_refl.
  - now repeat split.
  - unfold onclose.
    eapply sameTranscript_trans; [|apply stopAudio_sameTranscript].
    now repeat split.
  - unfold onerror. rewrite fst_andThen. simpl.
    eapply sameTranscript_trans; [|apply stopAudio_sameTranscript].
    now repeat split.
Qed.

Lemma handle_keeps (ev : Event) (s : AppState) :
  keepsEntries (messages s) (messages (fst (handle' ev s))).
Proof.
  destruct ev;
    try (apply keepsEntries_same, handle_sameTranscript; discriminate).
  apply onmessage_keeps.
Qed.

Lemma stateAfter_keeps (evs : list Event) (s : AppState) :
  keepsEntries (messages s) (messages (stateAfter' evs s)).
Proof.
  revert s. induction evs as [|ev evs IH]; intros s;
    [apply keepsEntries_refl|].
  rewrite stateAfter_cons.
  eapply keepsEntries_trans; [apply handle_keeps | apply IH].
Qed.

(** ** After a completed turn the last entry is final *)

Lemma lastFinal_openText (rho : MessageRole) (log : list ChatMessage) :
  lastFinal log -> openText rho log = None.
Proof.
  intros L. unfold openText. destruct (lastOf log) as [m|] eqn:E;
    [|reflexivity].
  destruct (lastOf_Some _ _ E) as [l ->]. unfold isOpen.
  now rewrite (L l m eq_refl), andb_false_r.
Qed.

Lemma sealLog_cases (now_ms : Z) (r : MessageRole) (b : jsstring)
    (log : list ChatMessage) :
  lastFinal (sealLog now_ms r b log) \/ sealLog now_ms r b log = log.
Proof.
  unfold sealLog. destruct (truthy b); [|now right].
  destruct (updateLastMessage_view now_ms r b true log) as [l x -> O|O B|O B];
    [left | left | now right];
    intros l0 m0 E; apply snoc_inj in E as [_ <-]; reflexivity.
Qed.

Lemma sealLog_lastFinal (now_ms : Z) (r : MessageRole) (b : jsstring)
    (log : list ChatMessage) :
  lastFinal log -> lastFinal (sealLog now_ms r b log).
Proof.
  intros L. destruct (sealLog_cases now_ms r b log) as [H | ->];
    assumption.
Qed.

Lemma sealLog_open (now_ms : Z) (r : MessageRole) (b : jsstring)
    (l : list ChatMessage) (m : ChatMessage) :
  isOpen r m = true -> truthy b = true ->
  sealLog now_ms r b (l ++ [m]) = l ++ [mkChatMessage (id m) (role m) b true
                                          (timestamp m)].
Proof.
  intros O T. unfold sealLog, updateLastMessage. rewrite T, lastOf_snoc.
  fold (isOpen r m). now rewrite O, removelast_last.
Qed.

Lemma sealBoth_lastFinal (now_ms : Z) (bu bm : jsstring)
    (log : list ChatMessage) :
  coherent log (fun r => match r with USER => bu | MODEL => bm end) ->
  lastFinal (sealLog now_ms MODEL bm (sealLog now_ms USER bu log)).
Proof.
  intros C.
  destruct log as [|m l _] using rev_ind.
  { apply sealLog_lastFinal, sealLog_lastFinal. intros l m E.
    now destruct l. }
  destruct (isFinal m) eqn:F.
  { apply sealLog_lastFinal, sealLog_lastFinal. intros l0 m0 E.
    apply snoc_inj in E as [_ <-]. exact F. }
  destruct (C l m eq_refl F) as [B NB].
  assert (T : truthy (text m) = true) by now apply nonblank_truthy.
  destruct (role m) eqn:R.
  - apply sealLog_lastFinal. subst bu.
    rewrite sealLog_open; [| unfold isOpen; now rewrite R, F | exact T].
    intros l0 m0 E. apply snoc_inj in E as [_ <-]. reflexivity.
  - destruct (sealLog_cases now_ms USER bu (l ++ [m])) as [H | ->].
    + now apply sealLog_lastFinal.
    + subst bm.
      rewrite sealLog_open; [| unfold isOpen; now rewrite R, F | exact T].
      intros l0 m0 E. apply snoc_inj in E as [_ <-]. reflexivity.
Qed.

Lemma truthy_false (b : jsstring) : truthy b = false -> b = [].
Proof. now destruct b. Qed.

Lemma onTurnComplete_messages (now_ms : Z) (s : AppState) :
  messages (onTurnComplete now_ms s)
  = sealLog now_ms MODEL (currentOutputTrans s)
      (sealLog now_ms USER (currentInputTrans s) (messages s)).
Proof.
  unfold onTurnComplete, sealLog.
  destruct (truthy (currentInputTrans s)); simpl;
    destruct (truthy (currentOutputTrans s)); reflexivity.
Qed.

Lemma onTurnComplete_buffers (now_ms : Z) (s : AppState) (r : MessageRole) :
  bufferOf r (onTurnComplete now_ms s) = [].
Proof.
  unfold onTurnComplete.
  destruct (truthy (currentInputTrans s)) eqn:TI; simpl;
    destruct (truthy (currentOutputTrans s)) eqn:TO; destruct r; simpl;
    auto using truthy_false.
Qed.

Lemma onTurnComplete_lastFinal (now_ms : Z) (s : AppState) :
  Coherent s -> lastFinal (messages (onTurnComplete now_ms s)).
Proof.
  intros C. rewrite onTurnComplete_messages. apply sealBoth_lastFinal.
  intros l m E F. destruct (C l m E F) as [B NB]. split; [|exact NB].
  rewrite <- B. now destruct (role m).
Qed.

(** An [appendDelta] where the role has no open last entry and an empty
    buffer. *)
Lemma appendDelta_fresh (r : Render) (now : Q) (now_ms : Z)
    (rho : MessageRole) (f : jsstring) (s : AppState) :
  bufferOf rho s = [] -> openText rho (messages s) = None ->
  messages (fst (onmessage' r now now_ms (Some (appendDelta rho f)) s))
  = if nonblank f then messages s ++ [newMessage now_ms rho f false]
    else messages s.
Proof.
  intros B O.
  assert (U : updateLastMessage now_ms rho f false (messages s)
              = if nonblank f
                then messages s ++ [newMessage now_ms rho f false]
                else messages s).
  { unfold updateLastMessage, appendIfText. unfold openText in O.
    destruct (lastOf (messages s)) as [m|]; [|reflexivity].
    fold (isOpen rho m). now destruct (isOpen rho m). }
  destruct rho; simpl in B; simpl;
    unfold onInputTranscription, onOutputTranscription; simpl;
    (destruct (truthy f) eqn:T;
     [simpl; rewrite B; exact U
     | apply truthy_false in T; subst f; reflexivity]).
Qed.

(** ** Fragments of one role accumulate *)

Lemma accum_update (now_ms : Z) (rho : MessageRole) (b f : jsstring)
    (base log : list ChatMessage) :
  openText rho base = None ->
  (if nonblank b
   then exists m, log = base ++ [m]
          /\ role m = rho /\ isFinal m = false /\ text m = b
   else log = base) ->
  if nonblank (b ++ f)
  then exists m, updateLastMessage now_ms rho (b ++ f) false log = base ++ [m]
         /\ role m = rho /\ isFinal m = false /\ text m = b ++ f
  else updateLastMessage now_ms rho (b ++ f) false log = base.
Proof.
  intros O H. destruct (nonblank b) eqn:NB.
  - destruct H as (m & -> & R & F & T).
    rewrite (nonblank_app_l b f NB).
    unfold updateLastMessage. rewrite lastOf_snoc, R, F, role_eqb_refl.
    simpl. rewrite removelast_last. eexists. split; [reflexivity|].
    now repeat split.
  - subst log. unfold updateLastMessage, appendIfText.
    unfold openText in O. destruct (lastOf base) as [x|].
    + fold (isOpen rho x). destruct (isOpen rho x); [discriminate|].
      destruct (nonblank (b ++ f)); [|reflexivity].
      eexists. split; [reflexivity|]. now repeat split.
    + destruct (nonblank (b ++ f)); [|reflexivity].
      eexists. split; [reflexivity|]. now repeat split.
Qed.

Lemma Accum_delta (r : Render) (now : Q) (now_ms : Z) (rho : MessageRole)
    (base : list ChatMessage) (b f : jsstring) (s : AppState) :
  Accum rho base b s ->
  Accum rho base (b ++ f)
    (fst (onmessage' r now now_ms (Some (appendDelta rho f)) s)).
Proof.
  intros (B & O & H).
  destruct (truthy f) eqn:T.
  - pose proof (accum_update now_ms rho b f base _ O H) as U.
    destruct rho; simpl in B; simpl;
      unfold onInputTranscription, onOutputTranscription; simpl;
      rewrite T; simpl; rewrite B; now repeat split.
  - apply truthy_false in T. subst f. rewrite app_nil_r.
    destruct rho; simpl; now repeat split.
Qed.

Lemma Accum_deltas (r : Render) (now : Q) (rho : MessageRole)
    (base : list ChatMessage) (fs : list (Z * jsstring)) :
  forall (b : jsstring) (s : AppState),
    Accum rho base b s ->
    Accum rho base (b ++ List.concat (map snd fs))
      (stateAfter' (map (deltaEvent r now rho) fs) s).
Proof.
  induction fs as [|f fs IH]; intros b s A; simpl.
  - now rewrite app_nil_r.
  - rewrite stateAfter_cons, app_assoc. apply IH.
    unfold deltaEvent. simpl handle. now apply Accum_delta.
Qed.

(** An unbroken run: fragments [f1 .. fn] delivered for one role with
    nothing in between, starting where the role has an empty buffer and
    no open last entry (the start of the session, or just after a seal),
    leave the buffer equal to
    [f1 ++ .. ++ fn]; if that text is not blank the log has gained exactly
    one entry, open, of that role, whose text is the concatenation in the
    order of arrival; if it is blank the log has gained nothing. *)
Theorem deltas_concatenate (r : Render) (now : Q) (rho : MessageRole)
    (fs : list (Z * jsstring)) (s : AppState) :
  bufferOf rho s = [] ->
  openText rho (messages s) = None ->
  let s' := stateAfter' (map (deltaEvent r now rho) fs) s in
  let t := List.concat (map snd fs) in
  bufferOf rho s' = t
  /\ (if nonblank t
      then exists m, messages s' = messages s ++ [m]
             /\ role m = rho /\ isFinal m = false /\ text m = t
      else messages s' = messages s).
Proof.
  intros B O s' t.
  assert (A : Accum rho (messages s) [] s) by now repeat split.
  apply (Accum_deltas r now rho _ fs) in A. simpl in A.
  destruct A as (B' & _ & H). now split.
Qed.

(** C7 (amended). No event changes, moves or removes an entry that is
    final: after any events every entry is still at its index with its
    identity, role and timestamp, and a final entry is unchanged.  An
    [appendDelta] that follows a [sealTurn] never touches the sealed
    entries: a fragment that is not blank after trimming adds one new open
    entry at the end of the log, and a blank one leaves the log as it
    is. *)
Theorem sealed_entries_are_kept (evs before : list Event) (s : AppState)
    (i : nat) (m : ChatMessage) (r : Render) (now : Q) (now_ms now_ms' : Z)
    (rho : MessageRole) (f : jsstring) :
  nth_error (messages s) i = Some m ->
  (exists m', nth_error (messages (stateAfter' evs s)) i = Some m'
     /\ id m' = id m /\ role m' = role m /\ timestamp m' = timestamp m
     /\ (isFinal m = true -> m' = m))
  /\ (let s1 := stateAfter' (before ++ [Message r now now_ms (Some sealTurn)])
                  initialState in
      messages (fst (onmessage' r now now_ms' (Some (appendDelta rho f)) s1))
      = if nonblank f
        then messages s1 ++ [newMessage now_ms' rho f false]
        else messages s1).
Proof.
  intros H. split; [now apply stateAfter_keeps|].
  intros s1. subst s1. rewrite stateAfter_app.
  set (s0 := stateAfter' before initialState).
  assert (C : Coherent s0)
    by apply stateAfter_Coherent, initialState_Coherent.
  change (stateAfter' [Message r now now_ms (Some sealTurn)] s0)
    with (onTurnComplete now_ms s0).
  apply appendDelta_fresh.
  - apply onTurnComplete_buffers.
  - now apply lastFinal_openText, onTurnComplete_lastFinal.
Qed.

(** ** One role at a time *)






(** C6 (amended). When the interruption signal arrives in a state of a
    session whose last log entry is an open MODEL entry [m], the live
    sources are all stopped and the set is emptied, and that entry is
    sealed in place: its text becomes [text m ++ " [Interrupted]"] with
    [isFinal = true], and the MODEL buffer is cleared. *)
Theorem interruption_seals_last_model_entry (evs : list Event) (r : Render)
    (now : Q) (now_ms : Z) (l : list ChatMessage) (m : ChatMessage) :
  let s := stateAfter' evs initialState in
  messages s = l ++ [m] -> role m = MODEL -> isFinal m = false ->
  let st := onmessage' r now now_ms (Some sealOnInterrupt) s in
  messages (fst st) = l ++ [sealed (lit " [Interrupted]") m]
  /\ currentOutputTrans (fst st) = []
  /\ audioSources (fst st) = []
  /\ snd st = map (fun n => NodeStop (node_id n)) (audioSources s).
Proof.
  intros s E R F st.
  assert (C : Coherent s)
    by apply stateAfter_Coherent, initialState_Coherent.
  destruct (C l m E F) as [B NB]. rewrite R in B. simpl in B.
  apply nonblank_truthy in NB.
  subst st. simpl. rewrite B, NB. simpl. rewrite E.
  unfold updateLastMessage. rewrite lastOf_snoc, R, F. simpl.
  rewrite removelast_last. unfold sealed. rewrite R. now repeat split.
Qed.

(** ** Playback *)

(** Case analysis on the innermost test of a handler. *)
Ltac break_match :=
  match goal with
  | |- context [match ?x with _ => _ end] =>
      lazymatch x with
      | context [match _ with _ => _ end] => fail
      | _ => destruct x eqn:?
      end
  end.

Ltac handler_cases := repeat (simpl; break_match); simpl.

Ltac unfold_handlers :=
  unfold handle, click, onClick, connect, connect_stream, connect_catch,
    onopen, captureFrame, onaudioprocess, onmessage, onInputTranscription,
    onOutputTranscription, onTurnComplete, onAudioOutput, schedule,
    onInterrupted, onended, onclose, onerror, disconnect, stopAudio,
    stopSources, disconnectMic, closeInputContext, resetOutputTiming,
    setupAudioContexts, swapLanguages, andThen, pass.

Lemma duration_nonneg (b : AudioBuffer) : (0 <= duration b)%Q.
Proof. unfold duration, Qle. simpl. lia. Qed.

Lemma start_le_end (x : Q) (b : AudioBuffer) : (x <= x + duration b)%Q.
Proof.
  rewrite <- (Qplus_0_r x) at 1. apply Qplus_le_r, duration_nonneg.
Qed.

Lemma clock_advance (x now : Q) (b : AudioBuffer) :
  (x <= Qmax x now + duration b)%Q.
Proof.
  apply Qle_trans with (Qmax x now);
    [apply Q.le_max_l | apply start_le_end].
Qed.

Lemma handle_outputContext (ev : Event) (s : AppState)
    (ctx : AudioContext) :
  outputContext s = Some ctx ->
  outputContext (fst (handle' ev s)) = Some ctx.
Proof.
  intros H. destruct ev; unfold_handlers; handler_cases; congruence.
Qed.

Lemma stateAfter_outputContext (evs : list Event) (s : AppState)
    (ctx : AudioContext) :
  outputContext s = Some ctx ->
  outputContext (stateAfter' evs s) = Some ctx.
Proof.
  revert s. induction evs as [|ev evs IH]; intros s H; [exact H|].
  rewrite stateAfter_cons. now apply IH, handle_outputContext.
Qed.

Lemma handle_clock_mono (ev : Event) (s : AppState) :
  stopsPlayback ev = false ->
  (nextStartTime s <= nextStartTime (fst (handle' ev s)))%Q.
Proof.
  intros H. destruct ev; try discriminate H;
    try (destruct c; try discriminate H);
    try (destruct msg as [c|]; simpl in H);
    unfold_handlers; handler_cases;
    try discriminate; try apply Qle_refl; try apply clock_advance.
Qed.

Lemma stateAfter_clock_mono (evs : list Event) (s : AppState) :
  forallb (fun ev => negb (stopsPlayback ev)) evs = true ->
  (nextStartTime s <= nextStartTime (stateAfter' evs s))%Q.
Proof.
  revert s. induction evs as [|ev evs IH]; intros s H; [apply Qle_refl|].
  simpl in H. apply andb_prop in H as [H1 H2].
  apply negb_true_iff in H1. rewrite stateAfter_cons.
  eapply Qle_trans; [apply handle_clock_mono; exact H1 | apply IH, H2].
Qed.

Lemma onmessage_audioChunk (r : Render) (now : Q) (now_ms : Z)
    (d : jsstring) (ctx : AudioContext) (s : AppState) :
  outputContext s = Some ctx ->
  r_isSpeakerMuted r = false ->
  truthy d = true ->
  onmessage' r now now_ms (Some (audioChunk d)) s
  = match decodeInline base64ToUint8Array decodeAudioData d ctx with
    | Some audioBuffer => schedule now audioBuffer s
    | None => (s, [ConsoleError (lit "Error decoding audio")])
    end.
Proof.
  intros O M T. unfold onmessage, onAudioOutput. simpl.
  rewrite O, M, T. simpl.
  destruct (decodeInline base64ToUint8Array decodeAudioData d ctx);
    reflexivity.
Qed.

(** C4. An inbound audio chunk that decodes to [bufA] is started at
    [max (nextStartTime, currentTime)] and the clock moves to that start
    plus the duration of the buffer.  When a second chunk is enqueued
    later, with no stop of playback in between, it starts no earlier than
    the end of the first: the two do not overlap and start in the order
    they were enqueued. *)
Theorem enqueue_orders_segments (r : Render) (nowA nowB : Q)
    (msA msB : Z) (dA dB : jsstring) (ctx : AudioContext)
    (bufA bufB : AudioBuffer) (between : list Event) (s : AppState) :
  outputContext s = Some ctx ->
  r_isSpeakerMuted r = false ->
  truthy dA = true -> truthy dB = true ->
  decodeInline base64ToUint8Array decodeAudioData dA ctx = Some bufA ->
  decodeInline base64ToUint8Array decodeAudioData dB ctx = Some bufB ->
  forallb (fun ev => negb (stopsPlayback ev)) between = true ->
  let a := onmessage' r nowA msA (Some (audioChunk dA)) s in
  let s1 := stateAfter' between (fst a) in
  let b := onmessage' r nowB msB (Some (audioChunk dB)) s1 in
  exists nA nB,
    snd a = [NodeStart nA] /\ snd b = [NodeStart nB]
    /\ buffer nA = bufA /\ buffer nB = bufB
    /\ startAt nA = Qmax (nextStartTime s) nowA
    /\ nextStartTime (fst a) = (startAt nA + duration bufA)%Q
    /\ startAt nB = Qmax (nextStartTime s1) nowB
    /\ nextStartTime (fst b) = (startAt nB + duration bufB)%Q
    /\ (startAt nA + duration bufA <= startAt nB)%Q
    /\ (startAt nA <= startAt nB)%Q.
Proof.
  intros O M TA TB DA DB NS a s1 b.
  assert (Ea : a = schedule nowA bufA s)
    by (subst a; rewrite (onmessage_audioChunk _ _ _ _ ctx), DA; auto).
  assert (O1 : outputContext s1 = Some ctx).
  { subst s1. apply stateAfter_outputContext. now rewrite Ea. }
  assert (Eb : b = schedule nowB bufB s1)
    by (subst b; rewrite (onmessage_audioChunk _ _ _ _ ctx), DB; auto).
  assert (L : (Qmax (nextStartTime s) nowA + duration bufA
               <= Qmax (nextStartTime s1) nowB)%Q).
  { eapply Qle_trans; [|apply Q.le_max_l].
    subst s1. rewrite Ea.
    now apply (stateAfter_clock_mono between (fst (schedule nowA bufA s))). }
  rewrite Ea, Eb. unfold schedule. simpl.
  eexists. eexists. repeat split; try exact L.
  eapply Qle_trans; [apply (start_le_end _ bufA) | exact L].
Qed.

Lemma schedule_after_reset (now now' : Q) (buf : AudioBuffer)
    (s : AppState) :
  (nextStartTime s == now)%Q -> (now <= now')%Q ->
  exists n, snd (schedule now' buf s) = [NodeStart n]
            /\ (startAt n == now')%Q.
Proof.
  intros E L. eexists. split; [reflexivity|]. simpl.
  apply Q.max_r. apply Qle_trans with now; [|exact L].
  apply Qle_lteq. now right.
Qed.

(** C5. With an output context, stopping playback (the interruption
    branch and [stopAudio] alike) stops every live source, whatever their
    number, leaves the set of live sources empty and sets the clock to the
    current time of the output context; a chunk enqueued afterwards, at a
    later reading [now'] of that clock, starts at [now']. *)
Theorem stop_resets_clock_to_now (now now' : Q) (now_ms : Z)
    (ctx : AudioContext) (buf : AudioBuffer) (s : AppState) :
  outputContext s = Some ctx ->
  (now <= now')%Q ->
  let i := onInterrupted now now_ms s in
  let a := stopAudio now s in
  audioSources (fst i) = [] /\ audioSources (fst a) = []
  /\ (nextStartTime (fst i) == now)%Q /\ nextStartTime (fst a) = now
  /\ (forall n, In n (audioSources s) ->
        In (NodeStop (node_id n)) (snd i)
        /\ In (NodeStop (node_id n)) (snd a))
  /\ (exists n, snd (schedule now' buf (fst i)) = [NodeStart n]
                /\ (startAt n == now')%Q)
  /\ (exists n, snd (schedule now' buf (fst a)) = [NodeStart n]
                /\ (startAt n == now')%Q).
Proof.
  intros O L i a.
  assert (Ci : (nextStartTime (fst i) == now)%Q).
  { subst i. unfold onInterrupted, currentTimeOrZero. simpl. rewrite O.
    destruct (truthy (currentOutputTrans s)); simpl;
      (destruct (Qeq_bool now 0) eqn:Z;
       [apply Qeq_bool_eq in Z; now rewrite Z | reflexivity]). }
  assert (Ca : nextStartTime (fst a) = now).
  { subst a. unfold_handlers. handler_cases; congruence. }
  repeat split.
  - subst i. unfold onInterrupted. simpl.
    now destruct (truthy (currentOutputTrans s)).
  - subst a. unfold_handlers. handler_cases; congruence.
  - exact Ci.
  - exact Ca.
  - subst i. simpl. now apply (in_map (fun x => NodeStop (node_id x))).
  - subst a. unfold stopAudio. rewrite snd_andThen. simpl.
    apply in_or_app. left.
    now apply (in_map (fun x => NodeStop (node_id x))).
  - now apply (schedule_after_reset now).
  - apply (schedule_after_reset now); [now rewrite Ca | exact L].
Qed.

(** C9. When the inline audio of a message fails to decode (the speaker
    is not muted and an output context exists, so decoding is attempted),
    the handler logs "Error decoding audio" and goes on: the message has
    the effect of the same message without its audio, a message that
    carries only that audio leaves the whole state as it was (session
    state, log, clock and live sources included), and the events that
    follow are handled as if the audio had not been sent. *)
Theorem decode_error_is_not_fatal (r : Render) (now : Q) (now_ms : Z)
    (c : ServerContent) (d : jsstring) (ctx : AudioContext)
    (rest : list Event) (s : AppState) :
  audioData c = Some d ->
  outputContext s = Some ctx ->
  r_isSpeakerMuted r = false ->
  truthy d = true ->
  decodeInline base64ToUint8Array decodeAudioData d ctx = None ->
  onmessage' r now now_ms (Some (audioChunk d)) s
  = (s, [ConsoleError (lit "Error decoding audio")])
  /\ fst (onmessage' r now now_ms (Some c) s)
     = fst (onmessage' r now now_ms (Some (withoutAudio c)) s)
  /\ snd (onmessage' r now now_ms (Some c) s)
     = ConsoleError (lit "Error decoding audio")
       :: snd (onmessage' r now now_ms (Some (withoutAudio c)) s)
  /\ stateAfter' (Message r now now_ms (Some c) :: rest) s
     = stateAfter' (Message r now now_ms (Some (withoutAudio c)) :: rest) s.
Proof.
  intros A O M T D.
  assert (E1 : onmessage' r now now_ms (Some (audioChunk d)) s
               = (s, [ConsoleError (lit "Error decoding audio")]))
    by (rewrite (onmessage_audioChunk _ _ _ _ ctx), D; auto).
  assert (E2 : fst (onmessage' r now now_ms (Some c) s)
               = fst (onmessage' r now now_ms (Some (withoutAudio c)) s)
               /\ snd (onmessage' r now now_ms (Some c) s)
                  = ConsoleError (lit "Error decoding audio")
                    :: snd (onmessage' r now now_ms
                              (Some (withoutAudio c)) s)).
  { unfold onmessage. simpl. rewrite A.
    set (s3 := if turnComplete c then _ else _).
    assert (O3 : outputContext s3 = Some ctx).
    { subst s3. unfold onTurnComplete, onOutputTranscription,
        onInputTranscription. handler_cases; congruence. }
    unfold onAudioOutput. rewrite O3, M, T, D. simpl.
    destruct (interrupted c); simpl; [|now split].
    destruct (onInterrupted now now_ms s3). now split. }
  destruct E2 as [E2 E3]. repeat split; try assumption.
  rewrite !stateAfter_cons. f_equal. exact E2.
Qed.


(** C3 (amended). In the states [connecting] and [connected] the page
    does not show the start button, so a start cannot be requested: a
    click on it reaches no handler, requests no device and no session and
    leaves the state, the log and the mute flags as they are.  ([connect]
    itself does not look at the session state.) *)
Theorem start_not_offered_while_active (key : option jsstring) (now : Q)
    (s : AppState) :
  connectionState s = connecting \/ connectionState s = connected ->
  offered s StartButton = false
  /\ click key now StartButton s = (s, []).
Proof.
  intros [H|H]; unfold click, offered, sessionIdle; rewrite H; now split.
Qed.

End Properties.

(** * The engine at the codec of the specification *)

(** ** Transcript *)



(** C6, counterexample: the MODEL entry "Hola, ..." is open, the user
    barges in (a USER fragment arrives), then the interruption signal:
    the open MODEL entry is still at index 0, not final and without the
    marker; the marked text went to a new entry at the end. *)
Lemma interruption_leaves_model_entry_open :
  let s := demoAfter [inbound 1 (appendDelta MODEL hola);
                      inbound 2 (appendDelta USER (lit "x"))]
             openedSession in
  let s' := fst (demoHandle (inbound 3 sealOnInterrupt) s) in
  nth_error (messages s) 0 = Some (mkChatMessage (lit "1") MODEL hola false 1)
  /\ messages s'
     = [mkChatMessage (lit "1") MODEL hola false 1;
        mkChatMessage (lit "2") USER (lit "x") false 2;
        mkChatMessage (lit "3") MODEL (hola ++ lit " [Interrupted]") true 3].
Proof. vm_compute. split; reflexivity. Qed.

Lemma interruption_seals_last_model_entry_witness :
  let evs := [Click StartButton 0%Q; StreamReady demoRender; Open demoRender;
              inbound 1 (audioChunk threeSamples);
              inbound 2 (appendDelta MODEL hola)] in
  let m := mkChatMessage (lit "2") MODEL hola false 2 in
  let s := demoAfter evs initialState in
  let st := demoHandle (inbound 3 sealOnInterrupt) s in
  messages s = [] ++ [m] /\ role m = MODEL /\ isFinal m = false
  /\ messages (fst st)
     = [mkChatMessage (lit "2") MODEL (hola ++ lit " [Interrupted]") true 2]
  /\ currentOutputTrans (fst st) = []
  /\ audioSources (fst st) = []
  /\ snd st = [NodeStop 0].
Proof.
  intros evs m s st. do 3 (split; [reflexivity|]).
  exact (interruption_seals_last_model_entry specCreateAudioBlob
           specBase64ToUint8Array specDecodeAudioData demoKey evs demoRender
           0%Q 3%Z [] m eq_refl eq_refl eq_refl).
Defined.

(** C7, counterexample: after a sealed turn, an [appendDelta] whose
    fragment is a single space creates no entry. *)
Lemma blank_fragment_after_seal_adds_nothing :
  let s1 := demoAfter [inbound 1 (appendDelta USER (lit "Hi"));
                       inbound 2 sealTurn] openedSession in
  messages s1 = [mkChatMessage (lit "1") USER (lit "Hi") true 1]
  /\ messages (fst (demoHandle (inbound 3 (appendDelta USER (lit " "))) s1))
     = messages s1.
Proof. vm_compute. split; reflexivity. Qed.

Lemma sealed_entries_are_kept_witness :
  let s := demoAfter [inbound 1 (appendDelta MODEL (lit "Hi"));
                      inbound 2 (appendDelta MODEL (lit " there"));
                      inbound 3 sealTurn] openedSession in
  let m := mkChatMessage (lit "1") MODEL (lit "Hi there") true 1 in
  let evs := [inbound 4 (appendDelta MODEL (lit "Bye"));
              inbound 5 (appendDelta USER (lit "ok"));
              inbound 6 sealOnInterrupt; Close 9%Q] in
  let before := [inbound 1 (appendDelta USER (lit "Hi"))] in
  let s1 := demoAfter (before ++ [inbound 2 sealTurn]) initialState in
  nth_error (messages s) 0 = Some m
  /\ (exists m', nth_error (messages (demoAfter evs s)) 0 = Some m'
        /\ id m' = id m /\ role m' = role m /\ timestamp m' = timestamp m
        /\ (isFinal m = true -> m' = m))
  /\ messages (fst (demoHandle (inbound 3 (appendDelta USER (lit "yo"))) s1))
     = messages s1 ++ [newMessage 3 USER (lit "yo") false].
Proof.
  intros s m evs before s1. split; [reflexivity|].
  exact (sealed_entries_are_kept specCreateAudioBlob specBase64ToUint8Array
           specDecodeAudioData demoKey evs before s 0 m demoRender 0%Q 2%Z
           3%Z USER (lit "yo") eq_refl).
Defined.

Lemma deltas_concatenate_witness :
  let fs := [(1%Z, lit "Hi"); (2%Z, []); (3%Z, lit " there")] in
  let s' := demoAfter (map (deltaEvent demoRender 0 MODEL) fs)
              openedSession in
  bufferOf MODEL openedSession = []
  /\ openText MODEL (messages openedSession) = None
  /\ bufferOf MODEL s' = lit "Hi there"
  /\ exists m, messages s' = messages openedSession ++ [m]
       /\ role m = MODEL /\ isFinal m = false /\ text m = lit "Hi there".
Proof.
  intros fs s'. split; [reflexivity|]. split; [reflexivity|].
  exact (deltas_concatenate specCreateAudioBlob specBase64ToUint8Array
           specDecodeAudioData demoKey demoRender 0%Q MODEL fs openedSession
           eq_refl eq_refl).
Defined.

(** ** Session control *)

(** C2: the session is started with the microphone on; the session
    opens; the user clicks the microphone button, so [isMicMuted] is
    [true]; the next capture frame is sent all the same, because
    [onaudioprocess] reads the [isMicMuted] of the render in which
    [connect] ran. *)
Theorem muted_frames_are_still_sent :
  let s := fst (demoHandle (Click MicButton 0) openedSession) in
  let frame := [0; 1 # 2; -1 # 2]%Q in
  isMicMuted s = true
  /\ demoHandle (Frame frame) s
     = (s, [SendRealtimeInput (specCreateAudioBlob frame)]).
Proof. vm_compute. split; reflexivity. Qed.

(** C3, counterexample: [connect], called in state [connected] with an
    API key, moves the session to [connecting] and asks for the
    microphone. *)
Lemma connect_is_not_rejected_while_connected :
  connectionState openedSession = connected
  /\ connectionState (fst (connect demoKey openedSession)) = connecting
  /\ snd (connect demoKey openedSession) = [GetUserMedia].
Proof. vm_compute. repeat split. Qed.

Lemma start_not_offered_while_active_witness :
  (connectionState openedSession = connecting
   \/ connectionState openedSession = connected)
  /\ offered openedSession StartButton = false
  /\ click demoKey 0 StartButton openedSession = (openedSession, []).
Proof.
  split; [right; reflexivity|].
  exact (start_not_offered_while_active demoKey 0%Q openedSession
           (or_intror eq_refl)).
Defined.


(** ** Playback *)

Lemma enqueue_orders_segments_witness :
  let bufA := mkAudioBuffer 3%N 24000 in
  let between := [Ended 0; inbound 2 (appendDelta MODEL (lit "Hi"))] in
  let a := demoHandle (inbound 1 (audioChunk threeSamples)) openedSession in
  let s1 := demoAfter between (fst a) in
  let b := demoHandle
             (Message demoRender (1 # 10) 3 (Some (audioChunk threeSamples)))
             s1 in
  outputContext openedSession = Some demoContext
  /\ r_isSpeakerMuted demoRender = false
  /\ truthy threeSamples = true
  /\ decodeInline specBase64ToUint8Array specDecodeAudioData threeSamples
       demoContext = Some bufA
  /\ forallb (fun ev => negb (stopsPlayback ev)) between = true
  /\ exists nA nB,
       snd a = [NodeStart nA] /\ snd b = [NodeStart nB]
       /\ buffer nA = bufA /\ buffer nB = bufA
       /\ startAt nA = Qmax (nextStartTime openedSession) 0
       /\ nextStartTime (fst a) = (startAt nA + duration bufA)%Q
       /\ startAt nB = Qmax (nextStartTime s1) (1 # 10)
       /\ nextStartTime (fst b) = (startAt nB + duration bufA)%Q
       /\ (startAt nA + duration bufA <= startAt nB)%Q
       /\ (startAt nA <= startAt nB)%Q.
Proof.
  intros bufA between a s1 b. do 5 (split; [reflexivity|]).
  exact (enqueue_orders_segments specCreateAudioBlob specBase64ToUint8Array
           specDecodeAudioData demoKey demoRender 0%Q (1 # 10)%Q 1%Z 3%Z
           threeSamples threeSamples demoContext bufA bufA between
           openedSession eq_refl eq_refl eq_refl eq_refl eq_refl eq_refl
           eq_refl).
Defined.

Lemma stop_resets_clock_to_now_witness :
  let i := onInterrupted 5 7 playingSession in
  let a := stopAudio 5 playingSession in
  let buf := mkAudioBuffer 3%N 24000 in
  outputContext playingSession = Some demoContext
  /\ (5 <= 6)%Q
  /\ List.length (audioSources playingSession) = 2
  /\ audioSources (fst i) = [] /\ audioSources (fst a) = []
  /\ (nextStartTime (fst i) == 5)%Q /\ nextStartTime (fst a) = 5%Q
  /\ (forall n, In n (audioSources playingSession) ->
        In (NodeStop (node_id n)) (snd i)
        /\ In (NodeStop (node_id n)) (snd a))
  /\ (exists n, snd (schedule 6 buf (fst i)) = [NodeStart n]
                /\ (startAt n == 6)%Q)
  /\ (exists n, snd (schedule 6 buf (fst a)) = [NodeStart n]
                /\ (startAt n == 6)%Q).
Proof.
  intros i a buf. split; [reflexivity|].
  assert (L : (5 <= 6)%Q) by (unfold Qle; simpl; lia).
  split; [exact L|]. split; [reflexivity|].
  exact (stop_resets_clock_to_now 5%Q 6%Q 7%Z demoContext buf
           playingSession eq_refl L).
Defined.

Lemma decode_error_is_not_fatal_witness :
  let c := mkServerContent None (Some (lit "Hi")) false (Some oddBytes)
             false in
  let rest := [inbound 2 (audioChunk threeSamples); inbound 3 sealTurn] in
  audioData c = Some oddBytes
  /\ outputContext playingSession = Some demoContext
  /\ r_isSpeakerMuted demoRender = false
  /\ truthy oddBytes = true
  /\ decodeInline specBase64ToUint8Array specDecodeAudioData oddBytes
       demoContext = None
  /\ demoHandle (inbound 1 (audioChunk oddBytes)) playingSession
     = (playingSession, [ConsoleError (lit "Error decoding audio")])
  /\ fst (demoHandle (inbound 1 c) playingSession)
     = fst (demoHandle (inbound 1 (withoutAudio c)) playingSession)
  /\ snd (demoHandle (inbound 1 c) playingSession)
     = ConsoleError (lit "Error decoding audio")
       :: snd (demoHandle (inbound 1 (withoutAudio c)) playingSession)
  /\ demoAfter (inbound 1 c :: rest) playingSession
     = demoAfter (inbound 1 (withoutAudio c) :: rest) playingSession.
Proof.
  intros c rest. do 5 (split; [reflexivity|]).
  exact (decode_error_is_not_fatal specCreateAudioBlob
           specBase64ToUint8Array specDecodeAudioData demoKey demoRender 0%Q
           1%Z c oddBytes demoContext rest playingSession eq_refl eq_refl
           eq_refl eq_refl eq_refl).
Defined.

(** ** Scenarios of section 8 *)

(** Two fragments and a completed turn give one final MODEL entry. *)
Example end_to_end_transcript :
  messages
    (demoAfter [inbound 1 (appendDelta MODEL (lit "Hi"));
                inbound 2 (appendDelta MODEL (lit " there"));
                inbound 3 sealTurn] openedSession)
  = [mkChatMessage (lit "1") MODEL (lit "Hi there") true 1].
Proof. reflexivity. Qed.

(** A buffer of one second, then one of half a second, both enqueued at
    time 0: the second starts at 1 and the clock ends at 3/2. *)
Example one_second_then_half :
  let a := schedule 0 (mkAudioBuffer 24000%N 24000) openedSession in
  let b := schedule 0 (mkAudioBuffer 12000%N 24000) (fst a) in
  map (fun e => match e with
                | NodeStart n => Some (Qred (startAt n))
                | _ => None
                end) (snd a ++ snd b)
  = [Some 0%Q; Some 1%Q]
  /\ Qred (nextStartTime (fst b)) = (3 # 2)%Q.
Proof. vm_compute. split; reflexivity. Qed.

(** A session started again after an error while the microphone flag was
    on: the flag is switched off, and the frame is still dropped. *)
Example unmuted_frames_are_still_dropped :
  let s1 := demoAfter [Click MicButton 0; Error (lit "closed") 0]
              openedSession in
  let r := renderOf s1 in
  let s2 := demoAfter [Click StartButton 0; StreamReady r; Open r;
                       Click MicButton 0] s1 in
  isMicMuted s1 = true /\ connectionState s2 = connected
  /\ isMicMuted s2 = false
  /\ demoHandle (Frame [0%Q]) s2 = (s2, []).
Proof. vm_compute. repeat split. Qed.

(** * Further properties of the engine *)

(** Case analysis on the innermost test of a handler. *)
Ltac break_inner :=
  match goal with
  | |- context [match ?x with _ => _ end] =>
      lazymatch x with
      | context [match _ with _ => _ end] => fail
      | _ => destruct x eqn:?
      end
  end.

Ltac by_cases := repeat (simpl; break_inner); simpl.

Ltac unfold_stopAudio :=
  unfold stopAudio, stopSources, disconnectMic, closeInputContext,
    resetOutputTiming, andThen, pass.

(** ** Ending a session *)

Lemma stopAudio_released (now : Q) (s : AppState) :
  let s' := fst (stopAudio now s) in
  audioSources s' = [] /\ scriptProcessor s' = None
  /\ mediaStreamSource s' = false
  /\ connectionState s' = connectionState s /\ error_ s' = error_ s
  /\ outputContext s' = outputContext s.
Proof. unfold_stopAudio. by_cases; repeat split; congruence. Qed.


(** X1. [stopAudio] is idempotent: run again on its own result, at the
    same reading of the clock, it changes nothing and has no effect. *)
Theorem stopAudio_idempotent (now : Q) (s : AppState) :
  stopAudio now (fst (stopAudio now s)) = (fst (stopAudio now s), []).
Proof. unfold_stopAudio. by_cases; try reflexivity; congruence. Qed.

Section Further.

Variable createAudioBlob : list Q -> Blob.
Variable base64ToUint8Array : jsstring -> option (list N).
Variable decodeAudioData : list N -> AudioContext -> option AudioBuffer.
Variable apiKey : option jsstring.

Local Abbreviation onAudioOutput' :=
  (onAudioOutput base64ToUint8Array decodeAudioData).
Local Abbreviation onmessage' := (onmessage base64ToUint8Array decodeAudioData).
Local Abbreviation handle' :=
  (handle createAudioBlob base64ToUint8Array decodeAudioData apiKey).
Local Abbreviation run' :=
  (run createAudioBlob base64ToUint8Array decodeAudioData apiKey).
Local Abbreviation stateAfter' :=
  (stateAfter createAudioBlob base64ToUint8Array decodeAudioData apiKey).
Local Abbreviation pageAfter' :=
  (pageAfter createAudioBlob base64ToUint8Array decodeAudioData apiKey).
Local Abbreviation handlePage' :=
  (handlePage createAudioBlob base64ToUint8Array decodeAudioData apiKey).


(** X3. What each ending leaves on the page.  A failed [connect] goes to
    [disconnected] and shows the message of the error, or "Failed to start
    session." when it has none or an empty one; [onclose] goes to
    [disconnected] and leaves the message as it was; [onerror] goes to
    [error] and shows "Connection error occurred."; [disconnect] goes to
    [disconnected], keeps the message and reloads the page last. *)
Theorem endings_outcome (message : option jsstring) (err : jsstring)
    (now : Q) (s : AppState) :
  let failed := fst (connect_catch message now s) in
  let closed_ := fst (onclose now s) in
  let errored := fst (onerror err now s) in
  let left_ := disconnect now s in
  (connectionState failed = disconnected
   /\ error_ failed
      = Some match message with
             | Some (c :: m) => c :: m
             | _ => lit "Failed to start session."
             end)
  /\ (connectionState closed_ = disconnected /\ error_ closed_ = error_ s)
  /\ (connectionState errored = error
      /\ error_ errored = Some (lit "Connection error occurred."))
  /\ (connectionState (fst left_) = disconnected
      /\ error_ (fst left_) = error_ s
      /\ exists e, snd left_ = e ++ [Reload]).
Proof.
  intros failed closed_ errored left_.
  subst failed closed_ errored left_.
  unfold connect_catch, onclose, onerror, disconnect.
  rewrite ?fst_andThen, ?snd_andThen. simpl.
  repeat match goal with
         | |- context [stopAudio now ?x] =>
             lazymatch goal with
             | _ : audioSources (fst (stopAudio now x)) = [] |- _ => fail
             | _ => pose proof (stopAudio_released now x)
                      as (? & _ & _ & ? & ? & _)
             end
         end.
  simpl in *. repeat split; try congruence.
  - destruct message as [[|c m]|]; simpl in *; congruence.
  - eexists. reflexivity.
Qed.

(** X4. [swapLanguages] exchanges the two languages in state
    [disconnected] and does nothing in any other state; applied twice it
    gives the state back.  In [connecting] and [error] the swap button is
    enabled, and a click on it changes nothing. *)
Theorem swapLanguages_involution (key : option jsstring) (now : Q)
    (s : AppState) :
  swapLanguages (swapLanguages s) = s
  /\ sourceLang (swapLanguages s)
     = match connectionState s with
       | disconnected => targetLang s
       | _ => sourceLang s
       end
  /\ targetLang (swapLanguages s)
     = match connectionState s with
       | disconnected => sourceLang s
       | _ => targetLang s
       end
  /\ click key now SwapButton s = (swapLanguages s, [])
  /\ offered s SwapButton
     = match connectionState s with connected => false | _ => true end.
Proof.
  destruct s as [cs ? ? ? ? ? ? ? ? ? ? ? ? ? ? ?].
  unfold click, offered, isConnected, swapLanguages.
  destruct cs; simpl; repeat split.
Qed.

(** X5. Capture frames go out one by one and in the order of capture:
    while a processor is connected whose callback was created with the
    microphone flag off, a run of frames sends exactly one blob per frame,
    in order, and changes no state; with the flag on in that render, or
    with no processor connected, nothing is sent. *)
Theorem frames_sent_in_order (frames : list (list Q)) (s : AppState) :
  run' (map Frame frames) s
  = (s, match scriptProcessor s with
        | Some r =>
            if r_isMicMuted r then []
            else map (fun f => SendRealtimeInput (createAudioBlob f)) frames
        | None => []
        end).
Proof.
  induction frames as [|f frames IH]; simpl.
  - unfold pass. now destruct (scriptProcessor s) as [[? ? [|] ?]|].
  - unfold captureFrame, onaudioprocess, andThen, pass.
    destruct (scriptProcessor s) as [r|] eqn:P;
      [destruct (r_isMicMuted r) eqn:M|];
      rewrite IH; rewrite ?P, ?M; reflexivity.
Qed.

(** ** The speaker flag *)

Lemma onInterrupted_effects (now : Q) (now_ms : Z) (s : AppState)
    (n : SourceNode) :
  ~ In (NodeStart n) (snd (onInterrupted now now_ms s)).
Proof.
  simpl. induction (audioSources s) as [|a l IH]; simpl; [tauto|].
  intros [H|H]; [discriminate | auto].
Qed.

(** X6. Text-only mode.  In a session whose callbacks were created with
    the speaker flag on, a message is handled as the same message without
    its inline audio: the transcript is updated as usual, nothing is
    decoded or logged, and no source is ever started. *)
Theorem text_only_mode (r : Render) (now : Q) (now_ms : Z)
    (c : ServerContent) (s : AppState) :
  r_isSpeakerMuted r = true ->
  onmessage' r now now_ms (Some c) s
  = onmessage' r now now_ms (Some (withoutAudio c)) s
  /\ forall n, ~ In (NodeStart n) (snd (onmessage' r now now_ms (Some c) s)).
Proof.
  intros M.
  assert (A : forall d s3, onAudioOutput' r now d s3 = pass s3).
  { intros d s3. unfold onAudioOutput.
    destruct d as [d|]; [destruct (outputContext s3)|]; try reflexivity.
    rewrite M. simpl. now rewrite andb_false_r. }
  assert (E : onmessage' r now now_ms (Some c) s
              = onmessage' r now now_ms (Some (withoutAudio c)) s)
    by (unfold onmessage; simpl; now rewrite !A).
  split; [exact E|]. intros n. rewrite E. unfold onmessage. simpl.
  destruct (interrupted c); [apply onInterrupted_effects | simpl; tauto].
Qed.

Lemma onInputTranscription_speaker (b : bool) (now_ms : Z)
    (t : option jsstring) (s : AppState) :
  onInputTranscription now_ms t (set_isSpeakerMuted b s)
  = set_isSpeakerMuted b (onInputTranscription now_ms t s).
Proof. unfold onInputTranscription. by_cases; reflexivity. Qed.

Lemma onOutputTranscription_speaker (b : bool) (now_ms : Z)
    (t : option jsstring) (s : AppState) :
  onOutputTranscription now_ms t (set_isSpeakerMuted b s)
  = set_isSpeakerMuted b (onOutputTranscription now_ms t s).
Proof. unfold onOutputTranscription. by_cases; reflexivity. Qed.

Lemma onTurnComplete_speaker (b : bool) (now_ms : Z) (s : AppState) :
  onTurnComplete now_ms (set_isSpeakerMuted b s)
  = set_isSpeakerMuted b (onTurnComplete now_ms s).
Proof. unfold onTurnComplete. by_cases; reflexivity. Qed.

Lemma onAudioOutput_speaker (b : bool) (r : Render) (now : Q)
    (d : option jsstring) (s : AppState) :
  onAudioOutput' r now d (set_isSpeakerMuted b s)
  = (set_isSpeakerMuted b (fst (onAudioOutput' r now d s)),
     snd (onAudioOutput' r now d s)).
Proof. unfold onAudioOutput, schedule, pass. by_cases; reflexivity. Qed.

Lemma onInterrupted_speaker (b : bool) (now : Q) (now_ms : Z)
    (s : AppState) :
  onInterrupted now now_ms (set_isSpeakerMuted b s)
  = (set_isSpeakerMuted b (fst (onInterrupted now now_ms s)),
     snd (onInterrupted now now_ms s)).
Proof.
  unfold onInterrupted, currentTimeOrZero. by_cases; reflexivity.
Qed.

(** X7. The message handler does not read the speaker flag of the state.
    Setting the flag before a message, which is all the two speaker
    buttons do, changes nothing of what the message does: the same sources
    are started and stopped, and the state it leaves differs in the flag
    alone. *)
Theorem speaker_buttons_do_not_reach_session (b : bool) (r : Render)
    (now now' : Q) (now_ms : Z) (msg : LiveServerMessage) (s : AppState) :
  onmessage' r now now_ms msg (set_isSpeakerMuted b s)
  = (set_isSpeakerMuted b (fst (onmessage' r now now_ms msg s)),
     snd (onmessage' r now now_ms msg s))
  /\ snd (onmessage' r now now_ms msg
            (fst (onClick apiKey now' TextOnlyButton s)))
     = snd (onmessage' r now now_ms msg s)
  /\ snd (onmessage' r now now_ms msg
            (fst (onClick apiKey now' SpeechAndTextButton s)))
     = snd (onmessage' r now now_ms msg s).
Proof.
  assert (E : forall b0,
             onmessage' r now now_ms msg (set_isSpeakerMuted b0 s)
             = (set_isSpeakerMuted b0 (fst (onmessage' r now now_ms msg s)),
                snd (onmessage' r now now_ms msg s))).
  { intros b0. destruct msg as [c|]; [|reflexivity].
    unfold onmessage.
    rewrite onInputTranscription_speaker, onOutputTranscription_speaker.
    set (s2 := onOutputTranscription now_ms _ _).
    assert (E3 : (if turnComplete c
                  then onTurnComplete now_ms (set_isSpeakerMuted b0 s2)
                  else set_isSpeakerMuted b0 s2)
                 = set_isSpeakerMuted b0
                     (if turnComplete c then onTurnComplete now_ms s2
                      else s2))
      by (destruct (turnComplete c);
          [apply onTurnComplete_speaker | reflexivity]).
    rewrite E3. set (s3 := if turnComplete c then _ else _).
    unfold andThen. rewrite onAudioOutput_speaker.
    destruct (onAudioOutput' r now (audioData c) s3) as [s4 e4]. simpl.
    destruct (interrupted c); [|reflexivity].
    rewrite onInterrupted_speaker.
    now destruct (onInterrupted now now_ms s4). }
  split; [apply E|]. simpl. now rewrite !E.
Qed.

(** ** More on the transcript *)

Lemma coherent_openText (r : MessageRole) (x : jsstring)
    (log : list ChatMessage) (buf : MessageRole -> jsstring) :
  coherent log buf -> openText r log = Some x ->
  buf r = x /\ nonblank x = true.
Proof.
  intros C O. unfold openText in O.
  destruct (lastOf log) as [m|] eqn:L; [|discriminate].
  destruct (lastOf_Some _ _ L) as [l ->].
  destruct (isOpen r m) eqn:I; [|discriminate]. injection O as <-.
  apply isOpen_inv in I as [R F]. rewrite <- R. now apply (C l m).
Qed.

Lemma noBlank_update (now_ms : Z) (r : MessageRole) (t : jsstring)
    (fin : bool) (log : list ChatMessage) :
  noBlankEntry log ->
  (forall x, openText r log = Some x -> nonblank t = true) ->
  noBlankEntry (updateLastMessage now_ms r t fin log).
Proof.
  intros N H. unfold noBlankEntry in *.
  destruct (updateLastMessage_view now_ms r t fin log) as [l m -> O|O B|O B].
  - apply Forall_app in N as [Nl _]. apply Forall_app. split; [exact Nl|].
    constructor; [|constructor]. simpl. apply (H (text m)).
    now rewrite openText_snoc, O.
  - apply Forall_app. split; [exact N|]. now constructor.
  - exact N.
Qed.

Lemma nonblank_interrupted (b : jsstring) :
  nonblank (b ++ lit " [Interrupted]") = true.
Proof.
  rewrite nonblank_existsb, existsb_app. apply orb_true_iff. now right.
Qed.

Lemma sealLog_noBlank (now_ms : Z) (r : MessageRole)
    (log : list ChatMessage) (buf : MessageRole -> jsstring) :
  coherent log buf -> noBlankEntry log ->
  coherent (sealLog now_ms r (buf r) log) buf
  /\ noBlankEntry (sealLog now_ms r (buf r) log).
Proof.
  intros C N. unfold sealLog. destruct (truthy (buf r)); [|now split].
  split; [now apply coherent_final with (buf := buf)|].
  apply noBlank_update; [exact N|]. intros x O.
  destruct (coherent_openText r x log buf C O) as [-> NB]. exact NB.
Qed.

Lemma onmessage_noBlank (r : Render) (now : Q) (now_ms : Z)
    (msg : LiveServerMessage) (s : AppState) :
  Coherent s -> noBlankEntry (messages s) ->
  noBlankEntry (messages (fst (onmessage' r now now_ms msg s))).
Proof.
  intros C N. destruct msg as [c|]; [|exact N].
  unfold onmessage. rewrite fst_andThen.
  set (s1 := onInputTranscription now_ms (inputTranscription c) s).
  assert (C1 : Coherent s1) by now apply onInputTranscription_Coherent.
  assert (N1 : noBlankEntry (messages s1)).
  { subst s1. unfold onInputTranscription.
    destruct (inputTranscription c) as [f|]; [destruct (truthy f)|];
      try exact N.
    simpl. apply noBlank_update; [exact N|]. intros x O.
    destruct (coherent_openText USER x _ _ C O) as [B NB].
    simpl in B. rewrite B. now apply nonblank_app_l. }
  set (s2 := onOutputTranscription now_ms (outputTranscription c) s1).
  assert (C2 : Coherent s2) by now apply onOutputTranscription_Coherent.
  assert (N2 : noBlankEntry (messages s2)).
  { subst s2. unfold onOutputTranscription.
    destruct (outputTranscription c) as [f|]; [destruct (truthy f)|];
      try exact N1.
    simpl. apply noBlank_update; [exact N1|]. intros x O.
    destruct (coherent_openText MODEL x _ _ C1 O) as [B NB].
    simpl in B. rewrite B. now apply nonblank_app_l. }
  set (s3 := if turnComplete c then _ else _).
  assert (CN3 : Coherent s3 /\ noBlankEntry (messages s3)).
  { subst s3. destruct (turnComplete c); [|now split].
    split; [now apply onTurnComplete_Coherent|].
    rewrite onTurnComplete_messages.
    destruct (sealLog_noBlank now_ms USER (messages s2)
                (fun r => bufferOf r s2) C2 N2) as [Ca Na].
    now apply (sealLog_noBlank now_ms MODEL _ (fun r => bufferOf r s2)). }
  destruct CN3 as [C3 N3].
  set (s4 := fst (onAudioOutput' r now (audioData c) s3)).
  pose proof (onAudioOutput_sameTranscript base64ToUint8Array
                decodeAudioData r now (audioData c) s3) as T4.
  fold s4 in T4.
  assert (N4 : noBlankEntry (messages s4))
    by (destruct T4 as [-> _]; exact N3).
  destruct (interrupted c); [|exact N4].
  unfold onInterrupted. simpl.
  destruct (truthy (currentOutputTrans s4)); [|exact N4]. simpl.
  apply noBlank_update; [exact N4|]. intros x _.
  apply nonblank_interrupted.
Qed.

(** X8. No empty bubbles: in every state a session can reach, every
    entry of the log has a text that is not blank after trimming. *)
Theorem no_blank_entries (evs : list Event) :
  noBlankEntry (messages (stateAfter' evs initialState)).
Proof.
  assert (G : forall s, Coherent s -> noBlankEntry (messages s) ->
                        noBlankEntry (messages (stateAfter' evs s))).
  { induction evs as [|ev evs IH]; intros s C N; [exact N|].
    rewrite stateAfter_cons. apply IH; [now apply handle_Coherent|].
    destruct ev;
      try (match goal with
           | |- noBlankEntry (messages (fst (handle' ?e s))) =>
               destruct (handle_sameTranscript createAudioBlob
                           base64ToUint8Array decodeAudioData apiKey e s)
                 as [M _]; [intros; discriminate | rewrite M; exact N]
           end).
    now apply onmessage_noBlank. }
  apply G; [apply initialState_Coherent | constructor].
Qed.

Lemma deltas_keep_other_buffer (r : Render) (now : Q) (rho : MessageRole)
    (fs : list (Z * jsstring)) :
  forall s,
    bufferOf (otherRole rho)
      (stateAfter' (map (deltaEvent r now rho) fs) s)
    = bufferOf (otherRole rho) s.
Proof.
  induction fs as [|f fs IH]; intros s; [reflexivity|].
  simpl map. rewrite stateAfter_cons, IH. unfold deltaEvent. simpl handle.
  destruct rho; simpl;
    unfold onInputTranscription, onOutputTranscription; simpl;
    now destruct (truthy (snd f)).
Qed.

(** X9. A turn in which one role alone spoke.  From a state where both
    buffers are empty and the role has no open entry at the end of the
    log, its fragments followed by a completed turn leave both buffers
    empty and, when the concatenated text is not blank, exactly one more
    entry in the log: final, of that role, with the concatenation as its
    text.  When the text is blank the log is as before. *)
Theorem one_role_turn (r : Render) (now : Q) (now_ms : Z)
    (rho : MessageRole) (fs : list (Z * jsstring)) (s : AppState) :
  bufferOf rho s = [] ->
  bufferOf (otherRole rho) s = [] ->
  openText rho (messages s) = None ->
  let s' := stateAfter' (map (deltaEvent r now rho) fs
                         ++ [Message r now now_ms (Some sealTurn)]) s in
  let t := List.concat (map snd fs) in
  currentInputTrans s' = [] /\ currentOutputTrans s' = []
  /\ (if nonblank t
      then exists m, messages s' = messages s ++ [m]
             /\ role m = rho /\ isFinal m = true /\ text m = t
      else messages s' = messages s).
Proof.
  intros B B' O s' t. subst s'. rewrite stateAfter_app.
  set (s1 := stateAfter' (map (deltaEvent r now rho) fs) s).
  assert (A : Accum rho (messages s) t s1).
  { apply (Accum_deltas createAudioBlob base64ToUint8Array decodeAudioData
             apiKey r now rho (messages s) fs [] s). now repeat split. }
  assert (B1 : bufferOf (otherRole rho) s1 = [])
    by (subst s1; now rewrite deltas_keep_other_buffer).
  change (stateAfter' [Message r now now_ms (Some sealTurn)] s1)
    with (onTurnComplete now_ms s1).
  split; [apply (onTurnComplete_buffers now_ms s1 USER)|].
  split; [apply (onTurnComplete_buffers now_ms s1 MODEL)|].
  rewrite onTurnComplete_messages.
  destruct A as (Bt & _ & H).
  assert (S : sealLog now_ms rho t (messages s1)
              = if nonblank t
                then removelast (messages s1)
                     ++ [mkChatMessage
                           (id (last (messages s1) (newMessage 0 rho t true)))
                           rho t true
                           (timestamp
                              (last (messages s1)
                                 (newMessage 0 rho t true)))]
                else messages s).
  { unfold sealLog. destruct (nonblank t) eqn:NB.
    - rewrite (nonblank_truthy t NB). destruct H as (m & -> & R & F & T).
      unfold updateLastMessage.
      rewrite lastOf_snoc, R, F, role_eqb_refl, removelast_last, last_last.
      reflexivity.
    - rewrite H. destruct (truthy t); [|reflexivity].
      unfold updateLastMessage, appendIfText. rewrite NB.
      unfold openText in O. destruct (lastOf (messages s)) as [x|];
        [|reflexivity].
      fold (isOpen rho x). now destruct (isOpen rho x). }
  assert (G : sealLog now_ms MODEL (currentOutputTrans s1)
                (sealLog now_ms USER (currentInputTrans s1) (messages s1))
              = sealLog now_ms rho t (messages s1)).
  { destruct rho; simpl in Bt, B1; rewrite Bt, B1; reflexivity. }
  rewrite G, S. destruct (nonblank t); [|reflexivity].
  destruct H as (m & -> & R & F & T). rewrite removelast_last.
  eexists. split; [reflexivity|]. now repeat split.
Qed.

Lemma updateLastMessage_other (now_ms : Z) (r : MessageRole) (t : jsstring)
    (fin : bool) (log : list ChatMessage) (i : nat) (m : ChatMessage) :
  nth_error log i = Some m -> role m <> r ->
  nth_error (updateLastMessage now_ms r t fin log) i = Some m.
Proof.
  intros H R.
  destruct (updateLastMessage_keeps now_ms r t fin log i m H)
    as (m' & H' & _).
  destruct (updateLastMessage_view now_ms r t fin log) as [l x -> O|O B|O B].
  - destruct (Nat.lt_ge_cases i (List.length l)) as [Lt|Ge].
    + rewrite nth_error_app1 in * by exact Lt. exact H.
    + rewrite nth_error_app2 in H by exact Ge.
      destruct (i - List.length l) as [|k]; simpl in H.
      * injection H as <-. now apply isOpen_inv in O as [O _].
      * now destruct k.
  - rewrite nth_error_app1; [exact H|]. apply nth_error_Some. congruence.
  - exact H.
Qed.

Lemma updateLastMessage_other_new (now_ms : Z) (r : MessageRole)
    (t : jsstring) (fin : bool) (log : list ChatMessage) (i : nat)
    (m : ChatMessage) :
  nth_error (updateLastMessage now_ms r t fin log) i = Some m ->
  role m <> r -> nth_error log i = Some m.
Proof.
  intros H R.
  destruct (updateLastMessage_view now_ms r t fin log) as [l x -> O|O B|O B].
  - destruct (Nat.lt_ge_cases i (List.length l)) as [Lt|Ge].
    + rewrite nth_error_app1 in * by exact Lt. exact H.
    + rewrite nth_error_app2 in H by exact Ge.
      destruct (i - List.length l) as [|k]; simpl in H.
      * injection H as <-. simpl in R. now apply isOpen_inv in O as [O _].
      * now destruct k.
  - destruct (Nat.lt_ge_cases i (List.length log)) as [Lt|Ge].
    + rewrite nth_error_app1 in H by exact Lt. exact H.
    + rewrite nth_error_app2 in H by exact Ge.
      destruct (i - List.length log) as [|k]; simpl in H.
      * injection H as <-. now simpl in R.
      * now destruct k.
  - exact H.
Qed.

(** X10. An update for one role never touches what belongs to the other.
    In every state, a fragment for [rho] leaves the buffer of the other
    role as it is and the entries of the other role as they are: the log
    afterwards holds an entry of the other role at an index exactly when
    the log before held it there.  The interruption signal does the same
    for the USER buffer and the USER entries. *)
Theorem other_role_is_untouched (r : Render) (now : Q) (now_ms : Z)
    (rho : MessageRole) (f : jsstring) (s : AppState) :
  let d := fst (onmessage' r now now_ms (Some (appendDelta rho f)) s) in
  let x := fst (onmessage' r now now_ms (Some sealOnInterrupt) s) in
  (forall i m, role m <> rho ->
     (nth_error (messages d) i = Some m
      <-> nth_error (messages s) i = Some m))
  /\ bufferOf (otherRole rho) d = bufferOf (otherRole rho) s
  /\ (forall j u, role u = USER ->
        (nth_error (messages x) j = Some u
         <-> nth_error (messages s) j = Some u))
  /\ currentInputTrans x = currentInputTrans s.
Proof.
  intros d x. subst d x.
  assert (D : messages (fst (onmessage' r now now_ms
                               (Some (appendDelta rho f)) s))
              = if truthy f
                then updateLastMessage now_ms rho (bufferOf rho s ++ f)
                       false (messages s)
                else messages s).
  { destruct rho; simpl;
      unfold onInputTranscription, onOutputTranscription; simpl;
      now destruct (truthy f). }
  assert (X : messages (fst (onmessage' r now now_ms
                               (Some sealOnInterrupt) s))
              = if truthy (currentOutputTrans s)
                then updateLastMessage now_ms MODEL
                       (currentOutputTrans s ++ lit " [Interrupted]") true
                       (messages s)
                else messages s).
  { simpl. now destruct (truthy (currentOutputTrans s)). }
  split; [|split; [|split]].
  - intros i m R. rewrite D. destruct (truthy f); [|tauto].
    split; intros H;
      [now apply updateLastMessage_other_new in H
      | now apply updateLastMessage_other].
  - destruct rho; simpl;
      unfold onInputTranscription, onOutputTranscription; simpl;
      now destruct (truthy f).
  - intros j u R. rewrite X.
    destruct (truthy (currentOutputTrans s)); [|tauto].
    assert (R' : role u <> MODEL) by congruence.
    split; intros H;
      [now apply updateLastMessage_other_new in H
      | now apply updateLastMessage_other].
  - simpl. now destruct (truthy (currentOutputTrans s)).
Qed.

(** X11. A completed turn closes the turn: after any message that
    carries the turn-complete signal, in any state a session can reach,
    both buffers are empty and the last entry of the log, if there is
    one, is final. *)
Theorem turn_complete_closes_turn (evs : list Event) (r : Render)
    (now : Q) (now_ms : Z) (c : ServerContent) :
  turnComplete c = true ->
  let s := stateAfter' (evs ++ [Message r now now_ms (Some c)])
             initialState in
  currentInputTrans s = [] /\ currentOutputTrans s = []
  /\ forall l m, messages s = l ++ [m] -> isFinal m = true.
Proof.
  intros TC s. subst s. rewrite stateAfter_app.
  set (s0 := stateAfter' evs initialState).
  assert (C0 : Coherent s0)
    by apply stateAfter_Coherent, initialState_Coherent.
  unfold stateAfter. simpl run. rewrite fst_andThen. simpl fst.
  unfold onmessage. rewrite fst_andThen, TC.
  set (s2 := onOutputTranscription now_ms _ _).
  assert (C2 : Coherent s2)
    by (subst s2; now apply onOutputTranscription_Coherent,
                            onInputTranscription_Coherent).
  set (s3 := onTurnComplete now_ms s2).
  set (s4 := fst (onAudioOutput' r now (audioData c) s3)).
  assert (T4 : sameTranscript s3 s4)
    by apply onAudioOutput_sameTranscript.
  destruct T4 as (M4 & I4 & O4).
  assert (I3 : currentInputTrans s3 = [])
    by apply (onTurnComplete_buffers now_ms s2 USER).
  assert (O3 : currentOutputTrans s3 = [])
    by apply (onTurnComplete_buffers now_ms s2 MODEL).
  assert (L3 : lastFinal (messages s3))
    by now apply onTurnComplete_lastFinal.
  destruct (interrupted c).
  - unfold onInterrupted. simpl. rewrite O4, O3. simpl.
    rewrite I4, O4, M4. now repeat split.
  - simpl. rewrite I4, O4, M4. now repeat split.
Qed.

(** X12. A completed turn after both roles spoke.  When the signal
    arrives while the last entry is an open MODEL entry and the USER
    buffer holds text that is not blank, that entry is left as it is,
    still open, and two final entries are appended behind it: one with the
    USER text and one that repeats the MODEL text. *)
Theorem turn_complete_after_both_roles (evs : list Event) (r : Render)
    (now : Q) (now_ms : Z) (l : list ChatMessage) (m : ChatMessage) :
  let s := stateAfter' evs initialState in
  messages s = l ++ [m] -> role m = MODEL -> isFinal m = false ->
  nonblank (currentInputTrans s) = true ->
  messages (fst (onmessage' r now now_ms (Some sealTurn) s))
  = l ++ [m; newMessage now_ms USER (currentInputTrans s) true;
          newMessage now_ms MODEL (text m) true].
Proof.
  intros s E R F NB.
  assert (C : Coherent s)
    by apply stateAfter_Coherent, initialState_Coherent.
  destruct (C l m E F) as [B NM]. rewrite R in B. simpl in B.
  change (fst (onmessage' r now now_ms (Some sealTurn) s))
    with (onTurnComplete now_ms s).
  rewrite onTurnComplete_messages, B, E. unfold sealLog.
  rewrite (nonblank_truthy _ NB), (nonblank_truthy _ NM).
  unfold updateLastMessage at 2. rewrite lastOf_snoc, R. simpl.
  unfold appendIfText. rewrite NB.
  unfold updateLastMessage. rewrite lastOf_snoc. simpl.
  unfold appendIfText. rewrite NM. rewrite <- !app_assoc. reflexivity.
Qed.

(** ** The live sources *)

Ltac unfold_all :=
  unfold handle, click, onClick, connect, connect_stream, connect_catch,
    onopen, captureFrame, onaudioprocess, onmessage, onInputTranscription,
    onOutputTranscription, onTurnComplete, onAudioOutput, onended, onclose,
    onerror, disconnect, stopAudio, stopSources, disconnectMic,
    closeInputContext, resetOutputTiming, setupAudioContexts, swapLanguages,
    andThen, pass.

Lemma StronglySorted_snoc (A : Type) (R : A -> A -> Prop) (l : list A)
    (x : A) :
  StronglySorted R l -> Forall (fun a => R a x) l ->
  StronglySorted R (l ++ [x]).
Proof.
  induction l as [|a l IH]; intros S F; simpl.
  - repeat constructor.
  - apply StronglySorted_inv in S as [S Fa].
    apply Forall_cons_iff in F as [Ra F].
    constructor; [now apply IH|].
    apply Forall_app. split; [exact Fa | now constructor].
Qed.

Lemma StronglySorted_filter (A : Type) (R : A -> A -> Prop)
    (p : A -> bool) (l : list A) :
  StronglySorted R l -> StronglySorted R (filter p l).
Proof.
  induction l as [|a l IH]; intros S; simpl; [constructor|].
  apply StronglySorted_inv in S as [S Fa].
  destruct (p a); [|now apply IH].
  constructor; [now apply IH|].
  apply Forall_forall. intros x I. apply filter_In in I as [I _].
  revert x I. now apply Forall_forall.
Qed.

Lemma Forall_filter (A : Type) (P : A -> Prop) (p : A -> bool)
    (l : list A) :
  Forall P l -> Forall P (filter p l).
Proof.
  intros F. apply Forall_forall. intros x I.
  apply filter_In in I as [I _]. revert x I. now apply Forall_forall.
Qed.

Lemma hasNode_fresh (k : nat) (l : list SourceNode) :
  Forall (fun a => node_id a < k) l -> hasNode k l = false.
Proof.
  unfold hasNode. induction 1 as [|a l Ha _ IH]; simpl; [reflexivity|].
  rewrite IH, orb_false_r. apply Nat.eqb_neq. lia.
Qed.

Lemma setDelete_last (n : SourceNode) (l : list SourceNode) :
  Forall (fun a => node_id a < node_id n) l ->
  setDelete (node_id n) (l ++ [n]) = l.
Proof.
  intros F. unfold setDelete. rewrite filter_app. simpl.
  rewrite Nat.eqb_refl. simpl. rewrite app_nil_r.
  induction F as [|a l Ha _ IH]; simpl; [reflexivity|].
  rewrite IH. assert (E : Nat.eqb (node_id a) (node_id n) = false)
    by (apply Nat.eqb_neq; lia).
  now rewrite E.
Qed.

Lemma PlaybackOk_same (s s' : AppState) :
  samePlayback s s' -> PlaybackOk s -> PlaybackOk s'.
Proof. intros (A & C & I). unfold PlaybackOk. now rewrite A, C, I. Qed.

Lemma PlaybackOk_empty (s : AppState) :
  audioSources s = [] -> PlaybackOk s.
Proof. intros E. unfold PlaybackOk. rewrite E. repeat constructor. Qed.

Lemma schedule_sources (now : Q) (b : AudioBuffer) (s : AppState) :
  PlaybackOk s ->
  audioSources (fst (schedule now b s))
  = audioSources s
    ++ [mkSourceNode (nextNodeId s) b (Qmax (nextStartTime s) now)].
Proof.
  intros (_ & _ & _ & I). simpl. unfold setAdd. simpl.
  now rewrite (hasNode_fresh _ _ I).
Qed.

Lemma PlaybackOk_schedule (now : Q) (b : AudioBuffer) (s : AppState) :
  PlaybackOk s -> PlaybackOk (fst (schedule now b s)).
Proof.
  intros P. pose proof (schedule_sources now b s P) as E.
  destruct P as (B & O & C & I). unfold PlaybackOk. rewrite E. simpl.
  repeat split.
  - apply StronglySorted_snoc; [exact B|].
    eapply Forall_impl; [|exact C]. intros a Ha. unfold before. simpl.
    eapply Qle_trans; [exact Ha | apply Q.le_max_l].
  - apply StronglySorted_snoc; [exact O|].
    eapply Forall_impl; [|exact I]. intros a Ha. exact Ha.
  - apply Forall_app. split.
    + eapply Forall_impl; [|exact C]. intros a Ha.
      eapply Qle_trans; [exact Ha | apply clock_advance].
    + constructor; [apply Qle_refl | constructor].
  - apply Forall_app. split.
    + eapply Forall_impl; [|exact I]. intros a Ha. simpl in Ha. lia.
    + constructor; [simpl; lia | constructor].
Qed.

Lemma PlaybackOk_ended (n : nat) (s : AppState) :
  PlaybackOk s -> PlaybackOk (onended n s).
Proof.
  intros (B & O & C & I). unfold PlaybackOk, onended, setDelete. simpl.
  repeat split;
    auto using StronglySorted_filter, Forall_filter.
Qed.

Lemma transcript_branches_samePlayback (now_ms : Z) (c : ServerContent)
    (s : AppState) :
  samePlayback s
    (if turnComplete c
     then onTurnComplete now_ms
            (onOutputTranscription now_ms (outputTranscription c)
               (onInputTranscription now_ms (inputTranscription c) s))
     else onOutputTranscription now_ms (outputTranscription c)
            (onInputTranscription now_ms (inputTranscription c) s)).
Proof.
  unfold onTurnComplete, onOutputTranscription, onInputTranscription,
    samePlayback.
  by_cases; repeat split.
Qed.

Lemma onmessage_PlaybackOk (r : Render) (now : Q) (now_ms : Z)
    (msg : LiveServerMessage) (s : AppState) :
  PlaybackOk s -> PlaybackOk (fst (onmessage' r now now_ms msg s)).
Proof.
  intros P. destruct msg as [c|]; [|exact P].
  unfold onmessage. rewrite fst_andThen.
  set (s3 := if turnComplete c then _ else _).
  assert (P3 : PlaybackOk s3)
    by (eapply PlaybackOk_same;
        [apply transcript_branches_samePlayback | exact P]).
  set (s4 := fst (onAudioOutput' r now (audioData c) s3)).
  assert (P4 : PlaybackOk s4).
  { subst s4. unfold onAudioOutput.
    destruct (audioData c) as [d|]; [|exact P3].
    destruct (outputContext s3) as [ctx|]; [|exact P3].
    destruct (truthy d && negb (r_isSpeakerMuted r)); [|exact P3].
    destruct (decodeInline _ _ d ctx); [|exact P3].
    now apply PlaybackOk_schedule. }
  destruct (interrupted c); [|exact P4].
  apply PlaybackOk_empty. unfold onInterrupted. simpl.
  now destruct (truthy (currentOutputTrans s4)).
Qed.

Lemma handle_PlaybackOk (ev : Event) (s : AppState) :
  PlaybackOk s -> PlaybackOk (fst (handle' ev s)).
Proof.
  intros P. destruct ev.
  - simpl. unfold click. destruct (offered s c); [|exact P].
    destruct c; simpl;
      try (eapply PlaybackOk_same; [|exact P]; now repeat split).
    + unfold connect. destruct (keyMissing apiKey); simpl;
        (eapply PlaybackOk_same; [|exact P]);
        unfold setupAudioContexts, samePlayback; by_cases; repeat split.
    + apply PlaybackOk_empty. unfold disconnect. rewrite fst_andThen.
      simpl. apply (stopAudio_released now s).
    + eapply PlaybackOk_same; [|exact P].
      unfold swapLanguages, samePlayback. by_cases; repeat split.
  - exact P.
  - apply PlaybackOk_empty. simpl. unfold connect_catch.
    rewrite fst_andThen. apply stopAudio_released.
  - eapply PlaybackOk_same; [|exact P]. simpl.
    unfold onopen, samePlayback. by_cases; repeat split.
  - now apply onmessage_PlaybackOk.
  - eapply PlaybackOk_same; [|exact P]. simpl.
    unfold captureFrame, onaudioprocess, samePlayback.
    by_cases; repeat split.
  - now apply PlaybackOk_ended.
  - apply PlaybackOk_empty. simpl. unfold onclose.
    apply stopAudio_released.
  - apply PlaybackOk_empty. simpl. unfold onerror.
    rewrite fst_andThen. apply stopAudio_released.
Qed.

Lemma stateAfter_PlaybackOk (evs : list Event) :
  forall s, PlaybackOk s -> PlaybackOk (stateAfter' evs s).
Proof.
  induction evs as [|ev evs IH]; intros s P; [exact P|].
  rewrite stateAfter_cons. now apply IH, handle_PlaybackOk.
Qed.

(** X13. In every state a session can reach, the live sources are held
    in the order they were started, none of them starts before the one
    ahead of it has ended, the clock [nextStartTime] is not before the end
    of any of them, and their identities are distinct. *)
Theorem live_sources_never_overlap (evs : list Event) :
  let s := stateAfter' evs initialState in
  StronglySorted before (audioSources s)
  /\ Forall (fun a => (endOf a <= nextStartTime s)%Q) (audioSources s)
  /\ NoDup (map node_id (audioSources s)).
Proof.
  intros s.
  assert (P : PlaybackOk s)
    by (apply stateAfter_PlaybackOk, PlaybackOk_empty; reflexivity).
  destruct P as (B & O & C & _). repeat split; try assumption.
  clear B C. induction O as [|a l _ IH F]; simpl; constructor; [|exact IH].
  intros I. apply in_map_iff in I as (x & E & I).
  pose proof (proj1 (Forall_forall _ _) F x I) as L.
  unfold olderThan in L. lia.
Qed.

(** X14. A source is live from its start to its end: in any state a
    session can reach, scheduling a buffer starts one new source and puts
    it last in the set of live sources; the [ended] event of that source
    takes it out again and leaves the others, and the [ended] event of any
    other source leaves it in. *)
Theorem scheduled_source_is_live_until_it_ends (evs : list Event)
    (now : Q) (b : AudioBuffer) (k : nat) :
  let s := stateAfter' evs initialState in
  let st := schedule now b s in
  let n := mkSourceNode (nextNodeId s) b (Qmax (nextStartTime s) now) in
  snd st = [NodeStart n]
  /\ audioSources (fst st) = audioSources s ++ [n]
  /\ audioSources (onended (node_id n) (fst st)) = audioSources s
  /\ (if Nat.eqb k (node_id n) then True
      else In n (audioSources (onended k (fst st)))).
Proof.
  intros s st n.
  assert (P : PlaybackOk s)
    by (apply stateAfter_PlaybackOk, PlaybackOk_empty; reflexivity).
  pose proof (schedule_sources now b s P) as E. fold n st in E.
  destruct P as (_ & _ & _ & I).
  split; [reflexivity|]. split; [exact E|]. split.
  - change (audioSources (onended (node_id n) (fst st)))
      with (setDelete (node_id n) (audioSources (fst st))).
    rewrite E. now apply setDelete_last.
  - destruct (Nat.eqb k (node_id n)) eqn:K; [exact Logic.I|].
    change (audioSources (onended k (fst st)))
      with (setDelete k (audioSources (fst st))).
    rewrite E. unfold setDelete. apply filter_In. split.
    + apply in_or_app. right. now left.
    + rewrite Nat.eqb_sym, K. reflexivity.
Qed.

(** ** The audio contexts *)

Lemma handle_ContextsOk (ev : Event) (s : AppState) :
  ContextsOk s -> ContextsOk (fst (handle' ev s)).
Proof.
  intros [I O]. destruct ev; unfold_all; unfold schedule, onInterrupted;
    by_cases; split; intros x E; simpl in E;
    try discriminate; try (injection E as <-; reflexivity);
    try (now apply I); try (now apply O);
    try (apply I; congruence); try (apply O; congruence).
Qed.

Lemma stateAfter_ContextsOk (evs : list Event) :
  forall s, ContextsOk s -> ContextsOk (stateAfter' evs s).
Proof.
  induction evs as [|ev evs IH]; intros s P; [exact P|].
  rewrite stateAfter_cons. now apply IH, handle_ContextsOk.
Qed.

(** X15. The audio contexts.  In every state a session can reach, the
    input context, when there is one, is an open context at 16000 Hz, and
    the output context, when there is one, an open context at 24000 Hz.
    [stopAudio] closes and forgets the input context and keeps the output
    context; after [connect] with a non-empty API key both contexts
    exist. *)
Theorem contexts_have_fixed_rates (evs : list Event) (now : Q)
    (c0 : N) (k : jsstring) :
  let s := stateAfter' evs initialState in
  let started := fst (connect (Some (c0 :: k)) s) in
  (inputContext s = None
   \/ inputContext s = Some (mkAudioContext 16000 false))
  /\ (outputContext s = None
      \/ outputContext s = Some (mkAudioContext 24000 false))
  /\ inputContext (fst (stopAudio now s)) = None
  /\ outputContext (fst (stopAudio now s)) = outputContext s
  /\ inputContext started = Some (mkAudioContext 16000 false)
  /\ outputContext started = Some (mkAudioContext 24000 false).
Proof.
  intros s started.
  assert (P : ContextsOk s).
  { apply stateAfter_ContextsOk. split; intros c E; discriminate. }
  destruct P as [I O].
  assert (I' : inputContext s = None
               \/ inputContext s = Some (mkAudioContext 16000 false))
    by (destruct (inputContext s) as [c|];
        [right; now rewrite (I c) | now left]).
  assert (O' : outputContext s = None
               \/ outputContext s = Some (mkAudioContext 24000 false))
    by (destruct (outputContext s) as [c|];
        [right; now rewrite (O c) | now left]).
  clear I O. subst started. clearbody s.
  split; [exact I'|]. split; [exact O'|].
  split; [|split; [apply (stopAudio_released now s)|]].
  - unfold_stopAudio. destruct I' as [E|E]; by_cases; try congruence;
      injection E as ->; discriminate.
  - unfold connect, setupAudioContexts. simpl.
    destruct (inputContext s) as [ci|] eqn:EI;
      destruct (outputContext s) as [co|] eqn:EO; simpl;
      rewrite ?EI, ?EO; simpl; rewrite ?EI, ?EO;
      destruct I' as [X|X]; destruct O' as [Y|Y]; split; congruence.
Qed.

(** ** The languages *)

Lemma handle_languages (ev : Event) (s : AppState) :
  languagesOk s -> languagesOk (fst (handle' ev s)).
Proof.
  intros [S T]. destruct ev; unfold_all; unfold schedule, onInterrupted;
    by_cases; split; assumption.
Qed.

Lemma optionValue_supported (i : nat) (c : jsstring) :
  optionValue i = Some c -> supported c.
Proof.
  unfold optionValue, supported. intros E.
  destruct (nth_error SUPPORTED_LANGUAGES i) as [l|] eqn:N; [|discriminate].
  injection E as <-. apply in_map. eapply nth_error_In. exact N.
Qed.

Lemma handlePage_languages (ev : PageEvent) (s : AppState) :
  languagesOk s -> languagesOk (handlePage' ev s).
Proof.
  intros L. destruct ev as [e|i|i]; simpl.
  - now apply handle_languages.
  - unfold onSelectSource. destruct (selectorDisabled s); [exact L|].
    destruct (optionValue i) as [c|] eqn:E; [|exact L].
    split; [now apply (optionValue_supported i) | apply L].
  - unfold onSelectTarget. destruct (selectorDisabled s); [exact L|].
    destruct (optionValue i) as [c|] eqn:E; [|exact L].
    split; [apply L | now apply (optionValue_supported i)].
Qed.

(** X16. Whatever is done on the page (the engine events, the two
    language selectors, the swap button), the source and target languages
    of the state are always codes of [SUPPORTED_LANGUAGES]. *)
Theorem languages_stay_supported (evs : list PageEvent) :
  let s := pageAfter' evs initialState in
  supported (sourceLang s) /\ supported (targetLang s).
Proof.
  intros s. subst s.
  assert (G : forall s0, languagesOk s0 ->
                         languagesOk (pageAfter' evs s0)).
  { induction evs as [|ev evs IH]; intros s0 L; [exact L|].
    simpl. apply IH. now apply handlePage_languages. }
  apply G. split; unfold supported; simpl; tauto.
Qed.

(** X17. While the session is [connected] the languages cannot be
    changed from the page: both selectors are disabled and the swap button
    is disabled, so choosing an option or clicking swap leaves the state
    as it is. *)
Theorem languages_frozen_while_connected (key : option jsstring) (now : Q)
    (i : nat) (s : AppState) :
  connectionState s = connected ->
  onSelectSource i s = s /\ onSelectTarget i s = s
  /\ click key now SwapButton s = (s, [])
  /\ swapLanguages s = s.
Proof.
  intros C.
  unfold onSelectSource, onSelectTarget, selectorDisabled, click, offered,
    isConnected, swapLanguages.
  rewrite C. now repeat split.
Qed.

(** ** Fragments of both roles between two seals *)

Lemma appendDelta_step (r : Render) (now : Q) (now_ms : Z)
    (rho : MessageRole) (f : jsstring) (s : AppState) :
  let d := fst (onmessage' r now now_ms (Some (appendDelta rho f)) s) in
  messages d
  = (if truthy f
     then updateLastMessage now_ms rho (bufferOf rho s ++ f) false
            (messages s)
     else messages s)
  /\ bufferOf rho d = bufferOf rho s ++ f
  /\ bufferOf (otherRole rho) d = bufferOf (otherRole rho) s.
Proof.
  destruct rho; simpl;
    unfold onInputTranscription, onOutputTranscription; simpl;
    (destruct (truthy f) eqn:T;
     [now repeat split
     | apply truthy_false in T; subst f; rewrite app_nil_r;
       now repeat split]).
Qed.

Lemma shows_same (now_ms : Z) (rho : MessageRole) (b f : jsstring)
    (log : list ChatMessage) :
  shows rho b log ->
  openText rho (updateLastMessage now_ms rho (b ++ f) false log)
  = if nonblank (b ++ f) then Some (b ++ f) else None.
Proof.
  unfold shows. intros S.
  destruct (updateLastMessage_view now_ms rho (b ++ f) false log)
    as [l m -> O|O B|O B].
  - rewrite openText_snoc, O in S. destruct S as [<- NB].
    rewrite (nonblank_app_l _ f NB), openText_snoc.
    apply isOpen_inv in O as [R _]. unfold isOpen. simpl.
    now rewrite R, role_eqb_refl.
  - rewrite B, openText_snoc. unfold isOpen. simpl.
    now rewrite role_eqb_refl.
  - now rewrite B.
Qed.

Lemma shows_other (now_ms : Z) (rho rho' : MessageRole) (b t : jsstring)
    (fin : bool) (log : list ChatMessage) :
  rho' <> rho -> shows rho b log ->
  shows rho b (updateLastMessage now_ms rho' t fin log).
Proof.
  unfold shows. intros N S.
  assert (E : forall x, role_eqb rho' rho && x = false).
  { intros x. destruct (role_eqb rho' rho) eqn:R; [|reflexivity].
    apply role_eqb_eq in R. contradiction. }
  destruct (updateLastMessage_view now_ms rho' t fin log)
    as [l m -> O|O B|O B].
  - rewrite openText_snoc. unfold isOpen. simpl.
    apply isOpen_inv in O as [R _]. now rewrite R, E.
  - rewrite openText_snoc. unfold isOpen. simpl. now rewrite E.
  - exact S.
Qed.

Lemma tracks_roleDelta (r : Render) (now : Q) (rho : MessageRole)
    (b : jsstring) (d : Z * (MessageRole * jsstring)) (s : AppState) :
  tracks rho b s ->
  tracks rho
    (b ++ if role_eqb (fst (snd d)) rho then snd (snd d) else [])
    (fst (handle' (roleDelta r now d) s)).
Proof.
  destruct d as [now_ms [rho' f]]. intros [B S].
  change (fst (handle' (roleDelta r now (now_ms, (rho', f))) s))
    with (fst (onmessage' r now now_ms (Some (appendDelta rho' f)) s)).
  cbn [fst snd].
  destruct (appendDelta_step r now now_ms rho' f s) as (M & Bs & Bo).
  set (d := fst (onmessage' r now now_ms (Some (appendDelta rho' f)) s))
    in *.
  destruct (role_eqb rho' rho) eqn:R.
  - apply role_eqb_eq in R. subst rho'. split; [now rewrite Bs, B|].
    rewrite M. unfold shows. destruct (truthy f) eqn:T.
    + rewrite B, (shows_same now_ms rho b f _ S).
      now destruct (nonblank (b ++ f)) eqn:NB.
    + apply truthy_false in T. subst f. now rewrite app_nil_r.
  - assert (N : rho' <> rho)
      by (intros ->; now rewrite role_eqb_refl in R).
    rewrite app_nil_r. split.
    + rewrite <- B.
      destruct rho, rho'; try contradiction; exact Bo.
    + rewrite M. destruct (truthy f); [|exact S].
      now apply shows_other.
Qed.

Lemma tracks_roleDeltas (r : Render) (now : Q) (rho : MessageRole)
    (ds : list (Z * (MessageRole * jsstring))) :
  forall b s, tracks rho b s ->
    tracks rho (b ++ fragmentsFor rho ds)
      (stateAfter' (map (roleDelta r now) ds) s).
Proof.
  induction ds as [|d ds IH]; intros b s T.
  - unfold fragmentsFor. simpl. now rewrite app_nil_r.
  - simpl map. rewrite stateAfter_cons. unfold fragmentsFor. simpl.
    rewrite app_assoc. apply IH. now apply tracks_roleDelta.
Qed.

(** C8 (amended). Fragments between two seals, starting where the role
    has an empty buffer and no open entry at the end of the log.  Whatever
    fragments of either role came before, right after a non-empty fragment
    of the role its buffer is the concatenation of all its fragments in
    call order, and, when that text is not blank, the last entry of the
    log is the open entry of the role and shows exactly that text.  When
    no fragment of the other role comes in between, that entry is the
    only one the fragments add to the log. *)
Theorem deltas_concatenate_between_seals (r : Render) (now : Q)
    (rho : MessageRole) (ds : list (Z * (MessageRole * jsstring)))
    (now_ms : Z) (c : N) (f : jsstring) (fs : list (Z * jsstring))
    (s : AppState) :
  bufferOf rho s = [] ->
  openText rho (messages s) = None ->
  (let s' := stateAfter' (map (roleDelta r now)
                            (ds ++ [(now_ms, (rho, c :: f))])) s in
   let t := fragmentsFor rho ds ++ c :: f in
   bufferOf rho s' = t
   /\ openText rho (messages s') = if nonblank t then Some t else None)
  /\ (let s' := stateAfter' (map (deltaEvent r now rho) fs) s in
      let t := List.concat (map snd fs) in
      bufferOf rho s' = t
      /\ (if nonblank t
          then exists m, messages s' = messages s ++ [m]
                 /\ role m = rho /\ isFinal m = false /\ text m = t
          else messages s' = messages s)).
Proof.
  intros B O. split.
  - intros s' t. subst s' t. rewrite map_app, stateAfter_app.
    set (s1 := stateAfter' (map (roleDelta r now) ds) s).
    assert (T1 : tracks rho (fragmentsFor rho ds) s1).
    { apply (tracks_roleDeltas r now rho ds [] s).
      split; [exact B|]. unfold shows. now rewrite O. }
    destruct T1 as [B1 S1].
    assert (E : stateAfter' (map (roleDelta r now)
                               [(now_ms, (rho, c :: f))]) s1
                = fst (onmessage' r now now_ms
                         (Some (appendDelta rho (c :: f))) s1))
      by (simpl map; rewrite stateAfter_cons; reflexivity).
    rewrite E.
    destruct (appendDelta_step r now now_ms rho (c :: f) s1)
      as (M & Bs & _).
    split; [now rewrite Bs, B1|].
    rewrite M. simpl truthy. cbv iota. rewrite B1.
    now apply shows_same.
  - apply (deltas_concatenate createAudioBlob base64ToUint8Array
             decodeAudioData apiKey r now rho fs s B O).
Qed.

(** ** Starting a session *)

(** X18. Starting a session.  With an API key and the start button on
    the page, the click, the microphone stream and the opening of the
    session bring the state to [connected] with no error message, both
    contexts present and the processor connected; the effects are, in
    order, the request for the microphone, the opening of the live session
    with the two languages of the page, and the resuming of the input
    context; the transcript is not touched.  A frame captured afterwards
    is sent exactly when the microphone flag was off at the click. *)
Theorem start_opens_session (now : Q) (frame : list Q) (s : AppState) :
  keyMissing apiKey = false ->
  offered s StartButton = true ->
  let r := renderOf s in
  let st := run' [Click StartButton now; StreamReady r; Open r] s in
  snd st = [GetUserMedia; LiveConnect (sourceLang s) (targetLang s);
            InputContextResume]
  /\ connectionState (fst st) = connected /\ error_ (fst st) = None
  /\ inputContext (fst st) <> None /\ outputContext (fst st) <> None
  /\ scriptProcessor (fst st) = Some r
  /\ mediaStreamSource (fst st) = true
  /\ sameTranscript s (fst st)
  /\ snd (captureFrame createAudioBlob frame (fst st))
     = if isMicMuted s then []
       else [SendRealtimeInput (createAudioBlob frame)].
Proof.
  intros K O r st. subst st r. simpl run. unfold click. rewrite O.
  unfold onClick, connect. rewrite K.
  unfold connect_stream, onopen, setupAudioContexts, captureFrame,
    onaudioprocess, andThen, pass, sameTranscript.
  simpl.
  destruct (inputContext s) as [ci|] eqn:EI;
    destruct (outputContext s) as [co|] eqn:EO;
    destruct (isMicMuted s) eqn:EM;
    simpl; rewrite ?EI, ?EO; simpl; rewrite ?EI, ?EO, ?EM; simpl;
    repeat split; simpl; rewrite ?EI, ?EO, ?EM; try reflexivity;
    discriminate.
Qed.

End Further.

(** ** The further properties at the codec of the specification *)


Lemma text_only_mode_witness :
  let r := mkRender (lit "vi") (lit "en") false true in
  let c := mkServerContent None (Some (lit "Hi")) false (Some threeSamples)
             true in
  r_isSpeakerMuted r = true
  /\ onmessage specBase64ToUint8Array specDecodeAudioData r 0%Q 1 (Some c)
       playingSession
     = onmessage specBase64ToUint8Array specDecodeAudioData r 0%Q 1
         (Some (withoutAudio c)) playingSession
  /\ forall n,
       ~ In (NodeStart n)
           (snd (onmessage specBase64ToUint8Array specDecodeAudioData r 0%Q
                   1 (Some c) playingSession)).
Proof.
  intros r c. split; [reflexivity|].
  exact (text_only_mode specBase64ToUint8Array specDecodeAudioData r 0%Q
           1%Z c playingSession eq_refl).
Defined.

Lemma one_role_turn_witness :
  let fs := [(1%Z, lit "Hi"); (2%Z, lit " "); (3%Z, lit "there")] in
  let s' := demoAfter (map (deltaEvent demoRender 0%Q MODEL) fs
                       ++ [inbound 4 sealTurn]) openedSession in
  bufferOf MODEL openedSession = []
  /\ bufferOf (otherRole MODEL) openedSession = []
  /\ openText MODEL (messages openedSession) = None
  /\ currentInputTrans s' = [] /\ currentOutputTrans s' = []
  /\ exists m, messages s' = messages openedSession ++ [m]
       /\ role m = MODEL /\ isFinal m = true /\ text m = lit "Hi there".
Proof.
  intros fs s'. do 3 (split; [reflexivity|]).
  exact (one_role_turn specCreateAudioBlob specBase64ToUint8Array
           specDecodeAudioData demoKey demoRender 0%Q 4%Z MODEL fs
           openedSession eq_refl eq_refl eq_refl).
Defined.

Lemma other_role_is_untouched_witness :
  let s := demoAfter [inbound 1 (appendDelta USER (lit " "));
                      inbound 2 (appendDelta MODEL (lit "Hello"))]
             openedSession in
  let d := fst (demoHandle (inbound 3 (appendDelta MODEL (lit " you"))) s) in
  let x := fst (demoHandle (inbound 3 sealOnInterrupt) s) in
  messages s = [mkChatMessage (lit "2") MODEL (lit "Hello") false 2]
  /\ currentInputTrans s = lit " "
  /\ (forall i m, role m <> MODEL ->
        (nth_error (messages d) i = Some m
         <-> nth_error (messages s) i = Some m))
  /\ bufferOf (otherRole MODEL) d = bufferOf (otherRole MODEL) s
  /\ (forall j u, role u = USER ->
        (nth_error (messages x) j = Some u
         <-> nth_error (messages s) j = Some u))
  /\ currentInputTrans x = currentInputTrans s.
Proof.
  intros s d x. split; [reflexivity|]. split; [reflexivity|].
  exact (other_role_is_untouched specBase64ToUint8Array specDecodeAudioData
           demoRender 0%Q 3%Z MODEL (lit " you") s).
Defined.

Lemma turn_complete_closes_turn_witness :
  let c := mkServerContent (Some (lit "ok")) None true (Some threeSamples)
             true in
  let evs := [Click StartButton 0%Q; StreamReady demoRender; Open demoRender;
              inbound 1 (appendDelta USER (lit "Hola"));
              inbound 2 (appendDelta MODEL (lit "Hello"))] in
  let s := demoAfter (evs ++ [inbound 3 c]) initialState in
  turnComplete c = true
  /\ currentInputTrans s = [] /\ currentOutputTrans s = []
  /\ forall l m, messages s = l ++ [m] -> isFinal m = true.
Proof.
  intros c evs s. split; [reflexivity|].
  exact (turn_complete_closes_turn specCreateAudioBlob
           specBase64ToUint8Array specDecodeAudioData demoKey evs demoRender
           0%Q 3%Z c eq_refl).
Defined.

Lemma turn_complete_after_both_roles_witness :
  let evs := [Click StartButton 0%Q; StreamReady demoRender; Open demoRender;
              inbound 1 (appendDelta USER (lit "Hola"));
              inbound 2 (appendDelta MODEL (lit "Hello"))] in
  let s := demoAfter evs initialState in
  let u := mkChatMessage (lit "1") USER (lit "Hola") false 1 in
  let m := mkChatMessage (lit "2") MODEL (lit "Hello") false 2 in
  messages s = [u] ++ [m] /\ role m = MODEL /\ isFinal m = false
  /\ nonblank (currentInputTrans s) = true
  /\ messages (fst (demoHandle (inbound 3 sealTurn) s))
     = [u; m; mkChatMessage (lit "3") USER (lit "Hola") true 3;
        mkChatMessage (lit "3") MODEL (lit "Hello") true 3].
Proof.
  intros evs s u m. do 4 (split; [reflexivity|]).
  exact (turn_complete_after_both_roles specCreateAudioBlob
           specBase64ToUint8Array specDecodeAudioData demoKey evs demoRender
           0%Q 3%Z [u] m eq_refl eq_refl eq_refl eq_refl).
Defined.

Lemma languages_frozen_while_connected_witness :
  connectionState openedSession = connected
  /\ onSelectSource 2 openedSession = openedSession
  /\ onSelectTarget 2 openedSession = openedSession
  /\ click demoKey 0%Q SwapButton openedSession = (openedSession, [])
  /\ swapLanguages openedSession = openedSession.
Proof.
  split; [reflexivity|].
  exact (languages_frozen_while_connected demoKey 0%Q 2 openedSession
           eq_refl).
Defined.

Lemma start_opens_session_witness :
  let s := fst (demoHandle (Error (lit "lost") 3%Q) playingSession) in
  let r := renderOf s in
  let st := run specCreateAudioBlob specBase64ToUint8Array
              specDecodeAudioData demoKey
              [Click StartButton 4%Q; StreamReady r; Open r] s in
  keyMissing demoKey = false
  /\ offered s StartButton = true
  /\ connectionState s = error
  /\ snd st = [GetUserMedia; LiveConnect (lit "vi") (lit "en");
               InputContextResume]
  /\ connectionState (fst st) = connected /\ error_ (fst st) = None
  /\ inputContext (fst st) <> None /\ outputContext (fst st) <> None
  /\ scriptProcessor (fst st) = Some r
  /\ mediaStreamSource (fst st) = true
  /\ sameTranscript s (fst st)
  /\ snd (captureFrame specCreateAudioBlob [0%Q] (fst st))
     = [SendRealtimeInput (specCreateAudioBlob [0%Q])].
Proof.
  intros s r st. do 3 (split; [reflexivity|]).
  exact (start_opens_session specCreateAudioBlob specBase64ToUint8Array
           specDecodeAudioData demoKey 4%Q [0%Q] s eq_refl eq_refl).
Defined.

(** ** Fragments of both roles *)

(** C8, counterexample: USER "a", MODEL "b", USER "c" with no seal.  The
    fragments of USER are "a" and "c"; the USER entry at index 0 is open
    and shows "a", not "ac". *)
Lemma open_entry_left_behind_by_other_role :
  let s := demoAfter [inbound 1 (appendDelta USER (lit "a"));
                      inbound 2 (appendDelta MODEL (lit "b"));
                      inbound 3 (appendDelta USER (lit "c"))]
             openedSession in
  messages s
  = [mkChatMessage (lit "1") USER (lit "a") false 1;
     mkChatMessage (lit "2") MODEL (lit "b") false 2;
     mkChatMessage (lit "3") USER (lit "ac") false 3]
  /\ lit "a" <> lit "a" ++ lit "c".
Proof. split; [reflexivity | discriminate]. Qed.

Lemma deltas_concatenate_between_seals_witness :
  let ds := [(1%Z, (USER, lit "a")); (2%Z, (MODEL, lit "b"))] in
  let fs := [(1%Z, lit "Hi"); (2%Z, lit " there")] in
  let s' := demoAfter (map (roleDelta demoRender 0%Q)
                         (ds ++ [(3%Z, (USER, lit "c"))])) openedSession in
  let s2 := demoAfter (map (deltaEvent demoRender 0%Q USER) fs)
              openedSession in
  bufferOf USER openedSession = []
  /\ openText USER (messages openedSession) = None
  /\ (bufferOf USER s' = lit "ac"
      /\ openText USER (messages s') = Some (lit "ac"))
  /\ bufferOf USER s2 = lit "Hi there"
  /\ exists m, messages s2 = messages openedSession ++ [m]
       /\ role m = USER /\ isFinal m = false /\ text m = lit "Hi there".
Proof.
  intros ds fs s' s2. split; [reflexivity|]. split; [reflexivity|].
  exact (deltas_concatenate_between_seals specCreateAudioBlob
           specBase64ToUint8Array specDecodeAudioData demoKey demoRender 0%Q
           USER ds 3%Z 99%N [] fs openedSession eq_refl eq_refl).
Defined.
